(** * BeltGridClicker: the grid traversal and click loop of [BeltGridClicker.py]

    A shallow embedding of the geometry ([compute_cell_size]), of the
    sequence built inside [run_macro], of the timing profile and of the
    click loop with its cancellation flag and its [try]/[finally].

    Numbers.  Python ints are [Z].  The values the script obtains with
    true division ([/]) and the timing constants are floats in Python;
    they are rationals [Q] here, i.e. the arithmetic is exact, and
    comparisons of such values are [Qeq] ([==]).

    Effects.  The module-level dicts [state] and [CFG], the calls made to
    the pointer/keyboard collaborator ([pyautogui]), [time.sleep] and the
    two loggers are gathered in a [World] that every function threads
    through; the calls that returned are kept in a trace.  The
    collaborator may raise (the fail-safe of [pyautogui] is on): oracles
    say at which loop index [pag.moveTo] and [pag.click] do, and whether
    [pag.keyDown] and [pag.keyUp] do.

    Hotkeys.  The callbacks [_panic], [capture_p00], [capture_pTR],
    [capture_pBL] and [reload_config_hotkey] run whenever the user
    presses their hotkey.  A schedule gives the callbacks that have run
    since the previous delivery point; the delivery points of a run are
    its start delay and, in the click loop, each place where the shared
    [state] is about to be read.  The statements of [run_macro] before
    the start delay are taken as one step.

    Randomness.  [random.randint] and [random.shuffle] draw from a tape
    of raw outcomes; durations are recorded as the distribution they are
    drawn from. *)

From Stdlib Require Import ZArith QArith Qminmax List Bool Arith Lia Permutation FinFun.
Import ListNotations.

Local Open Scope Z_scope.

(** ** Data *)

(** [pyautogui.Point]: a named tuple of two ints. *)
Record Point : Type := mkPoint { px : Z; py : Z }.

(** The dict [CFG]. *)
Record Config : Type := mkConfig {
  columns : Z;
  rows : Z;
  speed : Z;
  scan_order : Z
}.

(** The dict [state]; [None] is Python's [None]. *)
Record State : Type := mkState {
  p00 : option Point;
  pTR : option Point;
  pBL : option Point;
  running : bool
}.

(** Defaults of the module. *)
Definition CFG_default : Config := mkConfig 12 24 1 1.
Definition state_initial : State := mkState None None None false.

Definition BASE_CLICK_DELAY_MIN : Q := 11 # 100.
Definition BASE_CLICK_DELAY_MAX : Q := 18 # 100.
Definition BASE_MOVE_DURATION_MIN : Q := 2 # 100.
Definition BASE_MOVE_DURATION_MAX : Q := 6 # 100.
Definition BURST_MIN : Z := 24.
Definition BURST_MAX : Z := 48.
Definition BURST_REST_MIN : Q := 40 # 100.
Definition BURST_REST_MAX : Q := 90 # 100.
Definition UNIT_REST_MIN : Q := 30 # 100.
Definition UNIT_REST_MAX : Q := 70 # 100.
Definition START_DELAY : Q := 3.
Definition RANDOM_JITTER : Z := 2.

(** Exceptions that can leave the functions modelled here. *)
Inductive Exn : Type :=
| ZeroDivisionError
| AttributeError
| MoveToFailed (idx : nat)
| ClickFailed (idx : nat)
| KeyDownFailed
| KeyUpFailed.

(** The f-strings handed to [info] and [warn], one constructor per call
    site, with the values they interpolate. *)
Inductive Msg : Type :=
| MsgCaptured00 (p : Point)
| MsgCapturedTR (p : Point)
| MsgCapturedBL (p : Point)
| MsgConfigLoaded (c : Config)
| MsgConfigReloaded
| MsgInvalidCalibration
| MsgCellSize (w h : Q)
| MsgPanic
| MsgAlreadyRunning
| MsgCalibrationIncomplete
| MsgCellSizeFailed
| MsgStarting (w h : Q) (speed order : Z)
| MsgDone (clicks : Z).

(** How a sleep or move duration is drawn: the distribution and its
    bounds are recorded, the sample itself is not. *)
Inductive Duration : Type :=
| Fixed (d : Q)
| Uniform (lo hi : Q)
| Triangular (lo hi mode : Q).

(** The call site of a [time.sleep]. *)
Inductive SleepSite : Type := StartSleep | ClickSleep | BurstSleep | UnitSleep.

(** What the script does to the outside, in the order it does it. *)
Inductive Call : Type :=
| Info (m : Msg)
| Warn (m : Msg)
| KeyDown
| KeyUp
| MoveTo (x y : Q) (duration : Duration)
| Click
| Sleep (site : SleepSite) (d : Duration).

(** The callbacks registered on the hotkeys other than the start one,
    with what they read from outside the program: the pointer position
    for the captures, the integers parsed from [config.txt] for the
    reload ([None]: key absent or not an int). *)
Record Loaded : Type := mkLoaded {
  l_columns : option Z;
  l_rows : option Z;
  l_speed : option Z;
  l_scan_order : option Z
}.

Inductive Signal : Type :=
| Panic
| CaptureP00 (pos : Point)
| CapturePTR (pos : Point)
| CapturePBL (pos : Point)
| Reload (file : Loaded).

(** Everything the run does not control. *)
Record Env : Type := mkEnv {
  sched : nat -> list Signal;   (* callbacks run at each delivery point *)
  tape : nat -> Z;              (* raw outcomes of the random generator *)
  move_fails : nat -> bool;     (* pag.moveTo raises at this loop index *)
  click_fails : nat -> bool;    (* pag.click raises at this loop index *)
  key_down_fails : bool;        (* pag.keyDown('shift') raises *)
  key_up_fails : bool           (* pag.keyUp('shift') raises *)
}.

Record World : Type := mkWorld {
  w_state : State;
  w_cfg : Config;
  w_tick : nat;                 (* delivery points passed so far *)
  w_rpos : nat;                 (* random draws made so far *)
  w_trace : list Call           (* oldest first *)
}.

Definition set_state (s : State) (w : World) : World :=
  mkWorld s (w_cfg w) (w_tick w) (w_rpos w) (w_trace w).
Definition set_cfg (c : Config) (w : World) : World :=
  mkWorld (w_state w) c (w_tick w) (w_rpos w) (w_trace w).
Definition emit (c : Call) (w : World) : World :=
  mkWorld (w_state w) (w_cfg w) (w_tick w) (w_rpos w) (w_trace w ++ [c]).

Definition set_p00 (p : Point) (s : State) : State :=
  mkState (Some p) (pTR s) (pBL s) (running s).
Definition set_pTR (p : Point) (s : State) : State :=
  mkState (p00 s) (Some p) (pBL s) (running s).
Definition set_pBL (p : Point) (s : State) : State :=
  mkState (p00 s) (pTR s) (Some p) (running s).
Definition set_running (b : bool) (s : State) : State :=
  mkState (p00 s) (pTR s) (pBL s) b.

(** ** Config handling *)

(** The inner [to_int] of [load_config], after the lookup and the [int()]
    conversion: [parsed] is [None] when the key is absent and the default
    is used, or when the conversion raised.  Both bounds are given at
    every call site. *)
Definition to_int (parsed : option Z) (default min_v max_v : Z) : Z :=
  let val := match parsed with Some v => v | None => default end in
  let val := Z.max min_v val in
  Z.min max_v val.

Definition load_config (file : Loaded) (w : World) : World :=
  let c := w_cfg w in
  let c1 := mkConfig (to_int (l_columns file) (columns c) 1 9999)
                     (rows c) (speed c) (scan_order c) in
  let c2 := mkConfig (columns c1) (to_int (l_rows file) (rows c1) 1 9999)
                     (speed c1) (scan_order c1) in
  let c3 := mkConfig (columns c2) (rows c2) (to_int (l_speed file) (speed c2) 1 2)
                     (scan_order c2) in
  let c4 := mkConfig (columns c3) (rows c3) (speed c3)
                     (to_int (l_scan_order file) (scan_order c3) 1 3) in
  emit (Info (MsgConfigLoaded c4)) (set_cfg c4 w).

Definition reload_config_hotkey (file : Loaded) (w : World) : World :=
  emit (Info MsgConfigReloaded) (load_config file w).

(** ** Capture hotkeys *)

Definition capture_p00 (pos : Point) (w : World) : World :=
  emit (Info (MsgCaptured00 pos)) (set_state (set_p00 pos (w_state w)) w).
Definition capture_pTR (pos : Point) (w : World) : World :=
  emit (Info (MsgCapturedTR pos)) (set_state (set_pTR pos (w_state w)) w).
Definition capture_pBL (pos : Point) (w : World) : World :=
  emit (Info (MsgCapturedBL pos)) (set_state (set_pBL pos (w_state w)) w).

(** ** Control: the panic hotkey *)

Definition _panic (w : World) : World :=
  if running (w_state w)
  then emit (Warn MsgPanic) (set_state (set_running false (w_state w)) w)
  else w.

(** ** Delivery of the callbacks of the hotkey thread *)

Definition handle (s : Signal) (w : World) : World :=
  match s with
  | Panic => _panic w
  | CaptureP00 pos => capture_p00 pos w
  | CapturePTR pos => capture_pTR pos w
  | CapturePBL pos => capture_pBL pos w
  | Reload file => reload_config_hotkey file w
  end.

Definition handle_all (l : list Signal) (w : World) : World :=
  fold_left (fun w s => handle s w) l w.

Definition next_tick (w : World) : World :=
  mkWorld (w_state w) (w_cfg w) (S (w_tick w)) (w_rpos w) (w_trace w).

(** A delivery point: the callbacks scheduled for the current tick run,
    then the run thread goes on. *)
Definition deliver (E : Env) (w : World) : World :=
  next_tick (handle_all (sched E (w_tick w)) w).

(** ** Results of functions that can raise *)

Inductive Result (A : Type) : Type :=
| Ok (a : A)
| Raise (e : Exn).
Arguments Ok {A} a.
Arguments Raise {A} e.

(** ** Geometry *)

(** Python's [a / b] on two ints. *)
Definition true_div (a b : Z) : Result Q :=
  if b =? 0 then Raise ZeroDivisionError else Ok (inject_Z a / inject_Z b)%Q.

(** [compute_cell_size]: the pair it returns has both components [None]
    or both set. *)
Definition compute_cell_size (w : World) : World * Result (option Q * option Q) :=
  match p00 (w_state w), pTR (w_state w), pBL (w_state w) with
  | Some p00, Some pTR, Some pBL =>
      let total_w := px pTR - px p00 in
      let total_h := py pBL - py p00 in
      if (total_w <=? 0) || (total_h <=? 0)
      then (emit (Warn MsgInvalidCalibration) w, Ok (None, None))
      else
        match true_div total_w (columns (w_cfg w)) with
        | Raise e => (w, Raise e)
        | Ok cell_w =>
            match true_div total_h (rows (w_cfg w)) with
            | Raise e => (w, Raise e)
            | Ok cell_h =>
                (emit (Info (MsgCellSize cell_w cell_h)) w,
                 Ok (Some cell_w, Some cell_h))
            end
        end
  | _, _, _ => (w, Ok (None, None))
  end.

(** The two coordinate expressions of the click loop, with the jitter
    drawn for them. *)
Definition target_x (origin : Point) (c : Z) (cell_w : Q) (jitter : Z) : Q :=
  (inject_Z (px origin) + inject_Z c * cell_w + cell_w / 2 + inject_Z jitter)%Q.
Definition target_y (origin : Point) (r : Z) (cell_h : Q) (jitter : Z) : Q :=
  (inject_Z (py origin) + inject_Z r * cell_h + cell_h / 2 + inject_Z jitter)%Q.

(** ** Timing *)

Definition timing_profile (c : Config) : Q * Q * Q * Q :=
  if speed c =? 1
  then (BASE_CLICK_DELAY_MIN, BASE_CLICK_DELAY_MAX,
        BASE_MOVE_DURATION_MIN, BASE_MOVE_DURATION_MAX)
  else ((BASE_CLICK_DELAY_MIN * (1 # 2))%Q, (BASE_CLICK_DELAY_MAX * (1 # 2))%Q,
        Qmax 0 (BASE_MOVE_DURATION_MIN * (1 # 2)),
        Qmax 0 (BASE_MOVE_DURATION_MAX * (1 # 2))).

Definition human_delay (cd_min cd_max : Q) : Duration :=
  Triangular cd_min cd_max ((cd_min + cd_max) / 2)%Q.

(** ** The random generator *)

(** [random._randbelow(n)], for [n > 0]: the next raw outcome reduced
    into [0, n). *)
Definition next_draw (w : World) : World :=
  mkWorld (w_state w) (w_cfg w) (w_tick w) (S (w_rpos w)) (w_trace w).

Definition randbelow (E : Env) (n : Z) (w : World) : Z * World :=
  (tape E (w_rpos w) mod n, next_draw w).

(** [random.randint(a, b)]. *)
Definition randint (E : Env) (a b : Z) (w : World) : Z * World :=
  let (k, w') := randbelow E (b - a + 1) w in (a + k, w').

Section Lists.
Context {A : Type}.

(** [x[i] = v] for [i] in range. *)
Fixpoint update (i : nat) (v : A) (x : list A) : list A :=
  match x, i with
  | [], _ => []
  | _ :: t, O => v :: t
  | h :: t, S i' => h :: update i' v t
  end.

(** [x[i], x[j] = x[j], x[i]]; [random.shuffle] only uses it with
    both indices in range. *)
Definition swap (i j : nat) (x : list A) : list A :=
  match nth_error x i, nth_error x j with
  | Some xi, Some xj => update j xi (update i xj x)
  | _, _ => x
  end.

(** The loop of [random.shuffle]: [for i in reversed(range(1, len(x)))],
    entered with the largest index. *)
Fixpoint shuffle_from (E : Env) (i : nat) (x : list A) (w : World) : list A * World :=
  match i with
  | O => (x, w)
  | S i' =>
      let (j, w') := randbelow E (Z.of_nat i + 1) w in
      shuffle_from E i' (swap i (Z.to_nat j) x) w'
  end.

Definition shuffle (E : Env) (x : list A) (w : World) : list A * World :=
  shuffle_from E (length x - 1) x w.
End Lists.

(** ** The sequence of [(r, c)] pairs *)

(** [range(n)]. *)
Definition range (n : Z) : list Z := map Z.of_nat (seq 0 (Z.to_nat n)).

(** [[(r, c) for c in range(cols) for r in range(rows)]] *)
Definition column_major (cols rows : Z) : list (Z * Z) :=
  flat_map (fun c => map (fun r => (r, c)) (range rows)) (range cols).

(** [[(r, c) for r in range(rows) for c in range(cols)]] *)
Definition row_major (cols rows : Z) : list (Z * Z) :=
  flat_map (fun r => map (fun c => (r, c)) (range cols)) (range rows).

(** The [if order == 1 ... elif order == 2 ... else] that builds
    [sequence]. *)
Definition build_sequence (E : Env) (cols rows order : Z) (w : World)
  : list (Z * Z) * World :=
  if order =? 1 then (column_major cols rows, w)
  else if order =? 2 then (row_major cols rows, w)
  else shuffle E (row_major cols rows) w.

(** ** Control: [run_macro] *)

(** The locals of [run_macro] that are bound before the start delay. *)
Record Locals : Type := mkLocals {
  cell_w : Q;
  cell_h : Q;
  cols : Z;
  rows_ : Z;
  order : Z;
  cd_min : Q;
  cd_max : Q;
  mv_min : Q;
  mv_max : Q
}.

(** How the part of [run_macro] before [time.sleep(START_DELAY)] ends. *)
Inductive Entry : Type :=
| Rejected                  (* one of the three early [return]s *)
| Started (L : Locals)      (* reaches the start delay *)
| EntryRaised (e : Exn).

(** The last two disjuncts of the guard on the cell size:
    [cell_w == 0 or cell_h == 0]. *)
Definition degenerate (cw ch : Q) : bool := Qeq_bool cw 0 || Qeq_bool ch 0.

(** From the first line of [run_macro] to the [info] that announces the
    start. *)
Definition run_macro_entry (w : World) : World * Entry :=
  if running (w_state w)
  then (emit (Warn MsgAlreadyRunning) w, Rejected)
  else
    match p00 (w_state w), pTR (w_state w), pBL (w_state w) with
    | Some _, Some _, Some _ =>
        match compute_cell_size w with
        | (w1, Raise e) => (w1, EntryRaised e)
        | (w1, Ok (Some cw, Some ch)) =>
            if degenerate cw ch
            then (emit (Warn MsgCellSizeFailed) w1, Rejected)
            else
              let '(cdmin, cdmax, mvmin, mvmax) := timing_profile (w_cfg w1) in
              let L := mkLocals cw ch (columns (w_cfg w1)) (rows (w_cfg w1))
                                (scan_order (w_cfg w1)) cdmin cdmax mvmin mvmax in
              (emit (Info (MsgStarting cw ch (speed (w_cfg w1)) (order L))) w1,
               Started L)
        | (w1, Ok _) => (emit (Warn MsgCellSizeFailed) w1, Rejected)
        end
    | _, _, _ => (emit (Warn MsgCalibrationIncomplete) w, Rejected)
    end.

(** How one iteration of the click loop ends. *)
Inductive Step : Type :=
| Continue (clicks next_burst_at : Z)
| Break
| Raised (e : Exn).

(** [(idx + 1 == len(sequence)) or (sequence[idx + 1][k] != cur)], with
    [key] the projection [[k]].  The subscript is only evaluated when
    [idx + 1] is in range. *)
Definition unit_ends (key : Z * Z -> Z) (sequence : list (Z * Z)) (idx : nat) (cur : Z)
  : bool :=
  (S idx =? length sequence)%nat
  || negb (key (nth (S idx) sequence (0, 0)) =? cur).

(** The unit rest at the end of an iteration, for a run still active. *)
Definition unit_rest (L : Locals) (sequence : list (Z * Z)) (idx : nat) (r c : Z)
  (w : World) : World :=
  if order L =? 1 then
    if unit_ends snd sequence idx c
    then emit (Sleep UnitSleep (Uniform UNIT_REST_MIN UNIT_REST_MAX)) w
    else w
  else if order L =? 2 then
    if unit_ends fst sequence idx r
    then emit (Sleep UnitSleep (Uniform UNIT_REST_MIN UNIT_REST_MAX)) w
    else w
  else w.

(** The body of [for idx, (r, c) in enumerate(sequence)].  Each read of
    the shared [state] is preceded by a delivery point. *)
Definition loop_body (E : Env) (L : Locals) (sequence : list (Z * Z))
  (idx : nat) (rc : Z * Z) (clicks next_burst_at : Z) (w : World) : World * Step :=
  let (r, c) := rc in
  let w := deliver E w in
  if negb (running (w_state w)) then (w, Break)
  else
    let w := deliver E w in
    match p00 (w_state w) with
    | None => (w, Raised AttributeError)
    | Some origin_x =>
        let (jx, w) := randint E (- RANDOM_JITTER) RANDOM_JITTER w in
        let x := target_x origin_x c (cell_w L) jx in
        let w := deliver E w in
        match p00 (w_state w) with
        | None => (w, Raised AttributeError)
        | Some origin_y =>
            let (jy, w) := randint E (- RANDOM_JITTER) RANDOM_JITTER w in
            let y := target_y origin_y r (cell_h L) jy in
            if move_fails E idx then (w, Raised (MoveToFailed idx))
            else
              let w := emit (MoveTo x y (Uniform (mv_min L) (mv_max L))) w in
              if click_fails E idx then (w, Raised (ClickFailed idx))
              else
                let w := emit Click w in
                let clicks := clicks + 1 in
                let w := emit (Sleep ClickSleep (human_delay (cd_min L) (cd_max L))) w in
                let w := deliver E w in
                let (next_burst_at, w) :=
                  if (next_burst_at <=? clicks) && running (w_state w)
                  then
                    let w := emit (Sleep BurstSleep (Uniform BURST_REST_MIN BURST_REST_MAX)) w in
                    let (k, w) := randint E BURST_MIN BURST_MAX w in
                    (clicks + k, w)
                  else (next_burst_at, w) in
                let w := deliver E w in
                let w := if running (w_state w)
                         then unit_rest L sequence idx r c w
                         else w in
                (w, Continue clicks next_burst_at)
        end
    end.

(** The [for] loop: [rest] is what remains of [sequence] from [idx] on.
    It ends with the click count, by exhaustion or by [break]. *)
Fixpoint click_loop (E : Env) (L : Locals) (sequence : list (Z * Z))
  (idx : nat) (rest : list (Z * Z)) (clicks next_burst_at : Z) (w : World)
  : World * Result Z :=
  match rest with
  | [] => (w, Ok clicks)
  | rc :: rest' =>
      match loop_body E L sequence idx rc clicks next_burst_at w with
      | (w', Continue clicks' next') =>
          click_loop E L sequence (S idx) rest' clicks' next' w'
      | (w', Break) => (w', Ok clicks)
      | (w', Raised e) => (w', Raise e)
      end
  end.

(** The suite of the [try]. *)
Definition try_block (E : Env) (L : Locals) (w : World) : World * Result Z :=
  let clicks := 0 in
  let (sequence, w) := build_sequence E (cols L) (rows_ L) (order L) w in
  let (next_burst_at, w) := randint E BURST_MIN BURST_MAX w in
  match click_loop E L sequence 0 sequence clicks next_burst_at w with
  | (w, Ok clicks) => (emit (Info (MsgDone clicks)) w, Ok clicks)
  | (w, Raise e) => (w, Raise e)
  end.

(** The two statements of the [finally] suite when [pag.keyUp] returns. *)
Definition release (w : World) : World :=
  let w := emit KeyUp w in
  set_state (set_running false (w_state w)) w.

(** The suite of the [finally], entered with the result [res] of the
    [try].  When [pag.keyUp] raises, its exception replaces the pending
    one and [state["running"] = False] is not reached. *)
Definition finally_block (E : Env) (w : World) (res : Result Z) : World * Result Z :=
  if key_up_fails E then (w, Raise KeyUpFailed)
  else (release w, res).

(** From [time.sleep(START_DELAY)] on.  The callbacks that arrive during
    the delay run before [state["running"]] is set.  [pag.keyDown] is
    called before the [try]: when it raises, the [finally] suite is not
    run. *)
Definition run_macro_body (E : Env) (L : Locals) (w : World) : World * Result Z :=
  let w := emit (Sleep StartSleep (Fixed START_DELAY)) w in
  let w := deliver E w in
  let w := set_state (set_running true (w_state w)) w in
  if key_down_fails E then (w, Raise KeyDownFailed)
  else
    let w := emit KeyDown w in
    let (w, res) := try_block E L w in
    finally_block E w res.

(** How a call of [run_macro] ends: an early return, a normal return with
    the count it logged, or an exception. *)
Inductive Outcome : Type :=
| NotStarted
| Done (clicks : Z)
| Failed (e : Exn).

Definition run_macro (E : Env) (w : World) : World * Outcome :=
  match run_macro_entry w with
  | (w1, Rejected) => (w1, NotStarted)
  | (w1, EntryRaised e) => (w1, Failed e)
  | (w1, Started L) =>
      match run_macro_body E L w1 with
      | (w2, Ok clicks) => (w2, Done clicks)
      | (w2, Raise e) => (w2, Failed e)
      end
  end.

(** ** Observations on a trace *)

Definition is_click (c : Call) : bool := match c with Click => true | _ => false end.
Definition is_move (c : Call) : bool := match c with MoveTo _ _ _ => true | _ => false end.
Definition is_key_down (c : Call) : bool := match c with KeyDown => true | _ => false end.
Definition is_key_up (c : Call) : bool := match c with KeyUp => true | _ => false end.
Definition is_unit_rest (c : Call) : bool :=
  match c with Sleep UnitSleep _ => true | _ => false end.
Definition is_panic (s : Signal) : bool := match s with Panic => true | _ => false end.

Definition count (p : Call -> bool) (t : list Call) : nat := length (filter p t).

(** The targets of the moves, in order. *)
Definition targets (t : list Call) : list (Q * Q) :=
  flat_map (fun c => match c with MoveTo x y _ => [(x, y)] | _ => [] end) t.

(** A world as the script has it between two runs. *)
Definition idle_world (s : State) (c : Config) : World := mkWorld s c 0 0 [].

(** An environment that never presses a hotkey and whose collaborator
    never fails. *)
Definition quiet_env (t : nat -> Z) : Env :=
  mkEnv (fun _ => []) t (fun _ => false) (fun _ => false) false false.

(** [pag.keyDown] and [pag.keyUp] do not raise. *)
Definition keys_work (E : Env) : Prop :=
  key_down_fails E = false /\ key_up_fails E = false.

(** ** Notions used to state the properties *)

(** The three facts that make a list of pairs an enumeration of the
    cells of a [rows] x [cols] grid, each once. *)
Definition enumerates_grid (cols rows : Z) (l : list (Z * Z)) : Prop :=
  Z.of_nat (length l) = cols * rows
  /\ NoDup l
  /\ (forall r c, In (r, c) l <-> 0 <= r < rows /\ 0 <= c < cols).

(** The dict [state] after the three capture hotkeys, no run active. *)
Definition calibrated (a b c : Point) : State := mkState (Some a) (Some b) (Some c) false.

(** The reading of a target on a trace: the [n]-th move goes to [(x, y)]. *)
Definition nth_target_is (t : list Call) (n : nat) (x y : Q) : bool :=
  match nth_error (targets t) n with
  | Some (x', y') => Qeq_bool x' x && Qeq_bool y' y
  | None => false
  end.

(** The calibration and grid of the example of the geometry. *)
Definition example_world : World :=
  idle_world (calibrated (mkPoint 0 0) (mkPoint 240 0) (mkPoint 0 120))
             (mkConfig 24 12 1 1).

(** A random generator that makes every jitter 0. *)
Definition no_jitter : Env := quiet_env (fun _ => 2%Z).

(** What a callback does to the dict [state]. *)
Definition handle_state (s : Signal) (st : State) : State :=
  match s with
  | Panic => set_running false st
  | CaptureP00 pos => set_p00 pos st
  | CapturePTR pos => set_pTR pos st
  | CapturePBL pos => set_pBL pos st
  | Reload _ => st
  end.

(** What the callbacks scheduled at tick [t] do to the dict [state]. *)
Definition deliver_state (E : Env) (t : nat) (st : State) : State :=
  fold_left (fun st s => handle_state s st) (sched E t) st.

(** A panic is scheduled at tick [t]. *)
Definition panicked (E : Env) (t : nat) : bool := existsb is_panic (sched E t).

(** No panic is scheduled at the [n] ticks from [t] on. *)
Definition alive (E : Env) (t n : nat) : bool :=
  forallb (fun i => negb (panicked E i)) (seq t n).

(** Predicates on calls that ignore what the loggers print. *)
Definition logless (p : Call -> bool) : Prop :=
  forall m, p (Info m) = false /\ p (Warn m) = false.

(** 1 for [true], 0 for [false]. *)
Definition b2n (b : bool) : nat := if b then 1%nat else 0%nat.

(** Whether the unit rest is due after the cell [(r, c)] at [idx]. *)
Definition unit_due (L : Locals) (sequence : list (Z * Z)) (idx : nat) (r c : Z) : bool :=
  if order L =? 1 then unit_ends snd sequence idx c
  else if order L =? 2 then unit_ends fst sequence idx r
  else false.

(** Predicates on calls that only see the keyboard: they ignore the
    loggers, the pointer and the sleeps. *)
Definition keys_only (p : Call -> bool) : Prop :=
  logless p
  /\ (forall x y d, p (MoveTo x y d) = false)
  /\ p Click = false
  /\ (forall s d, p (Sleep s d) = false).

(** The tick of the delivery point that precedes the top-of-loop check of
    step [i], for a run entered at tick [t0]: one delivery point for the
    start delay, five per iteration. *)
Definition top_of_step (t0 i : nat) : nat := t0 + 1 + 5 * i.

(** The number of unit rests due over the cells [rest], met from index
    [idx] on, in a run that stays active. *)
Fixpoint units_due (L : Locals) (sequence : list (Z * Z)) (idx : nat)
  (rest : list (Z * Z)) : nat :=
  match rest with
  | [] => 0
  | (r, c) :: rest' =>
      b2n (unit_due L sequence idx r c) + units_due L sequence (S idx) rest'
  end.

(** The last [n] calls of a trace. *)
Definition last_calls (n : nat) (t : list Call) : list Call :=
  skipn (length t - n) t.

(** The shared world of the example: a grid of 2 columns and 1 row. *)
Definition two_cells : World :=
  idle_world (calibrated (mkPoint 0 0) (mkPoint 20 0) (mkPoint 0 10))
             (mkConfig 2 1 1 1).

(** The shared world once a run has passed its start delay, has set
    [state["running"]] and pressed shift. *)
Definition begun (w : World) : World :=
  emit KeyDown (set_state (set_running true (w_state w)) w).

(** A schedule whose only callback is a capture of [p00] at tick [t]. *)
Definition capture_at (t : nat) (pos : Point) : Env :=
  mkEnv (fun i => if (i =? t)%nat then [CaptureP00 pos] else [])
        (fun _ => 2) (fun _ => false) (fun _ => false) false false.

(** The fail-safe of [pyautogui] on the grid of two cells: the pointer
    is in the corner of the screen from the second step on, so that
    [pag.moveTo] raises there and [pag.keyUp] raises after it. *)
Definition fail_safe_at_step_1 : Env :=
  mkEnv (fun _ => []) (fun _ => 2) (fun i => (i =? 1)%nat) (fun _ => false) false true.

(** The callbacks whose writes the click loop reads. *)
Definition concerns_run (s : Signal) : bool :=
  match s with
  | Panic | CaptureP00 _ => true
  | _ => false
  end.

(** [E] with another schedule of callbacks. *)
Definition with_sched (E : Env) (s : nat -> list Signal) : Env :=
  mkEnv s (tape E) (move_fails E) (click_fails E) (key_down_fails E) (key_up_fails E).

(** Two worlds that the click loop cannot tell apart, and that have
    moved the pointer to the same targets. *)
Definition same_view (w w' : World) : Prop :=
  p00 (w_state w) = p00 (w_state w')
  /\ running (w_state w) = running (w_state w')
  /\ w_tick w = w_tick w'
  /\ w_rpos w = w_rpos w'
  /\ targets (w_trace w) = targets (w_trace w').

(** ** Notions used to state further properties *)

(** The ranges [load_config] clamps the four keys to. *)
Definition cfg_in_bounds (c : Config) : Prop :=
  1 <= columns c <= 9999 /\ 1 <= rows c <= 9999
  /\ 1 <= speed c <= 2 /\ 1 <= scan_order c <= 3.

(** The three calibration points are set. *)
Definition calibration_complete (s : State) : Prop :=
  p00 s <> None /\ pTR s <> None /\ pBL s <> None.

(** The extents [compute_cell_size] tests, on a complete calibration. *)
Definition extent_not_positive (s : State) : Prop :=
  exists a b c, p00 s = Some a /\ pTR s = Some b /\ pBL s = Some c
                /\ (px b <= px a \/ py c <= py a).

(** No hotkey is pressed at any delivery point. *)
Definition silent (E : Env) : Prop := forall t, sched E t = [].

Definition is_burst_rest (c : Call) : bool :=
  match c with Sleep BurstSleep _ => true | _ => false end.

Definition is_sleep (c : Call) : bool :=
  match c with Sleep _ _ => true | _ => false end.

(** The move target [xy] is the centre of cell [rc] for the origin [o]
    and the cell size of [L], displaced by an integer jitter of at most
    [RANDOM_JITTER] on each axis. *)
Definition near_centre (o : Point) (L : Locals) (rc : Z * Z) (xy : Q * Q) : Prop :=
  exists jx jy,
    - RANDOM_JITTER <= jx <= RANDOM_JITTER
    /\ - RANDOM_JITTER <= jy <= RANDOM_JITTER
    /\ fst xy = target_x o (snd rc) (cell_w L) jx
    /\ snd xy = target_y o (fst rc) (cell_h L) jy.

(** * Properties *)

(** ** Lists: [range], the two comprehensions, [swap] and [shuffle] *)

Lemma range_length (n : Z) : length (range n) = Z.to_nat n.
Proof. unfold range. now rewrite length_map, length_seq. Qed.

Lemma in_range (n x : Z) : In x (range n) <-> 0 <= x < n.
Proof.
  unfold range. rewrite in_map_iff. split.
  - intros (k & <- & Hk). apply in_seq in Hk. lia.
  - intros Hx. exists (Z.to_nat x). split; [lia|]. apply in_seq. lia.
Qed.

Lemma NoDup_range (n : Z) : NoDup (range n).
Proof.
  unfold range. apply Injective_map_NoDup.
  - intros a b Hab. lia.
  - apply seq_NoDup.
Qed.

Lemma nth_error_range (n : Z) (i : nat) :
  (i < Z.to_nat n)%nat -> nth_error (range n) i = Some (Z.of_nat i).
Proof.
  intros Hi. unfold range. rewrite nth_error_map.
  rewrite nth_error_seq.
  destruct (Nat.ltb_spec i (Z.to_nat n)); [reflexivity | lia].
Qed.

Section FlatMap.
Context {A B : Type} (f : A -> list B).

Lemma flat_map_length_const (k : nat) (l : list A) :
  (forall a, In a l -> length (f a) = k) ->
  length (flat_map f l) = (length l * k)%nat.
Proof.
  induction l as [|a l IH]; intros Hk; simpl; [reflexivity|].
  rewrite length_app, Hk by (now left).
  rewrite IH; [reflexivity|]. intros a' Ha'. apply Hk. now right.
Qed.

Lemma nth_error_flat_map_const (k : nat) (l : list A) (i j : nat) (a : A) :
  (forall a, In a l -> length (f a) = k) ->
  nth_error l i = Some a -> (j < k)%nat ->
  nth_error (flat_map f l) (i * k + j) = nth_error (f a) j.
Proof.
  revert i. induction l as [|h l IH]; intros i Hk Hi Hj.
  - destruct i; discriminate.
  - destruct i as [|i]; simpl in *.
    + injection Hi as ->. rewrite nth_error_app1; [reflexivity|].
      rewrite Hk; auto.
    + rewrite nth_error_app2 by (rewrite Hk; auto; lia).
      rewrite Hk by auto.
      replace (k + i * k + j - k)%nat with (i * k + j)%nat by lia.
      apply IH; auto.
Qed.

Lemma NoDup_flat_map (l : list A) :
  NoDup l ->
  (forall a, In a l -> NoDup (f a)) ->
  (forall a a' b, In a l -> In a' l -> In b (f a) -> In b (f a') -> a = a') ->
  NoDup (flat_map f l).
Proof.
  induction 1 as [|a l Hnot Hnd IH]; intros Hin Hdisj; simpl; [constructor|].
  apply NoDup_app.
  - apply Hin. now left.
  - apply IH.
    + intros a' Ha'. apply Hin. now right.
    + intros a1 a2 b H1 H2. apply Hdisj; now right.
  - intros b Hb Hb'. apply in_flat_map in Hb' as (a' & Ha' & Hb').
    assert (a = a') by (apply (Hdisj a a' b); simpl; auto).
    subst a'. contradiction.
Qed.
End FlatMap.

Lemma column_major_length (C R : Z) :
  length (column_major C R) = (Z.to_nat C * Z.to_nat R)%nat.
Proof.
  unfold column_major.
  rewrite (flat_map_length_const _ (Z.to_nat R)), range_length; [reflexivity|].
  intros a _. now rewrite length_map, range_length.
Qed.

Lemma row_major_length (C R : Z) :
  length (row_major C R) = (Z.to_nat R * Z.to_nat C)%nat.
Proof.
  unfold row_major.
  rewrite (flat_map_length_const _ (Z.to_nat C)), range_length; [reflexivity|].
  intros a _. now rewrite length_map, range_length.
Qed.

Lemma in_column_major (C R r c : Z) :
  In (r, c) (column_major C R) <-> 0 <= r < R /\ 0 <= c < C.
Proof.
  unfold column_major. rewrite in_flat_map. split.
  - intros (c' & Hc' & Hin). apply in_map_iff in Hin as (r' & Heq & Hr').
    injection Heq as <- <-. apply in_range in Hc', Hr'. tauto.
  - intros [Hr Hc]. exists c. split; [now apply in_range|].
    apply in_map_iff. exists r. split; [reflexivity | now apply in_range].
Qed.

Lemma in_row_major (C R r c : Z) :
  In (r, c) (row_major C R) <-> 0 <= r < R /\ 0 <= c < C.
Proof.
  unfold row_major. rewrite in_flat_map. split.
  - intros (r' & Hr' & Hin). apply in_map_iff in Hin as (c' & Heq & Hc').
    injection Heq as <- <-. apply in_range in Hc', Hr'. tauto.
  - intros [Hr Hc]. exists r. split; [now apply in_range|].
    apply in_map_iff. exists c. split; [reflexivity | now apply in_range].
Qed.

Lemma NoDup_column_major (C R : Z) : NoDup (column_major C R).
Proof.
  unfold column_major. apply NoDup_flat_map.
  - apply NoDup_range.
  - intros c _. apply Injective_map_NoDup; [|apply NoDup_range].
    intros a b Hab. now injection Hab.
  - intros c c' [r0 c0] _ _ H1 H2.
    apply in_map_iff in H1 as (? & H1 & _), H2 as (? & H2 & _). congruence.
Qed.

Lemma NoDup_row_major (C R : Z) : NoDup (row_major C R).
Proof.
  unfold row_major. apply NoDup_flat_map.
  - apply NoDup_range.
  - intros r _. apply Injective_map_NoDup; [|apply NoDup_range].
    intros a b Hab. now injection Hab.
  - intros r r' [r0 c0] _ _ H1 H2.
    apply in_map_iff in H1 as (? & H1 & _), H2 as (? & H2 & _). congruence.
Qed.

Lemma nth_error_column_major (C R r c : Z) :
  0 <= r < R -> 0 <= c < C ->
  nth_error (column_major C R) (Z.to_nat c * Z.to_nat R + Z.to_nat r) = Some (r, c).
Proof.
  intros Hr Hc. unfold column_major.
  rewrite (nth_error_flat_map_const _ (Z.to_nat R) _ _ _ c).
  - rewrite nth_error_map, nth_error_range by lia. simpl. f_equal. f_equal. lia.
  - intros a _. now rewrite length_map, range_length.
  - rewrite nth_error_range by lia. f_equal. lia.
  - lia.
Qed.

Lemma nth_error_row_major (C R r c : Z) :
  0 <= r < R -> 0 <= c < C ->
  nth_error (row_major C R) (Z.to_nat r * Z.to_nat C + Z.to_nat c) = Some (r, c).
Proof.
  intros Hr Hc. unfold row_major.
  rewrite (nth_error_flat_map_const _ (Z.to_nat C) _ _ _ r).
  - rewrite nth_error_map, nth_error_range by lia. simpl. f_equal. f_equal. lia.
  - intros a _. now rewrite length_map, range_length.
  - rewrite nth_error_range by lia. f_equal. lia.
  - lia.
Qed.

Lemma column_major_enumerates (C R : Z) :
  0 <= C -> 0 <= R -> enumerates_grid C R (column_major C R).
Proof.
  intros HC HR. split; [|split].
  - rewrite column_major_length. lia.
  - apply NoDup_column_major.
  - intros r c. apply in_column_major.
Qed.

Lemma row_major_enumerates (C R : Z) :
  0 <= C -> 0 <= R -> enumerates_grid C R (row_major C R).
Proof.
  intros HC HR. split; [|split].
  - rewrite row_major_length. lia.
  - apply NoDup_row_major.
  - intros r c. apply in_row_major.
Qed.

Lemma enumerates_grid_perm (C R : Z) (l l' : list (Z * Z)) :
  Permutation l l' -> enumerates_grid C R l -> enumerates_grid C R l'.
Proof.
  intros Hp (Hlen & Hnd & Hin). split; [|split].
  - now rewrite <- (Permutation_length Hp).
  - now apply (Permutation_NoDup Hp).
  - intros r c. rewrite <- Hin. split; apply Permutation_in; [symmetry|]; assumption.
Qed.

Section Shuffle.
Context {A : Type}.

Lemma update_length (i : nat) (v : A) (x : list A) :
  length (update i v x) = length x.
Proof.
  revert i. induction x as [|h t IH]; intros [|i]; simpl; auto.
Qed.

(** Writing [v] over the element [a] at index [i] trades [a] for [v]. *)
Lemma update_perm (i : nat) (v a : A) (x : list A) :
  nth_error x i = Some a -> Permutation (v :: x) (a :: update i v x).
Proof.
  revert i. induction x as [|h t IH]; intros [|i] Hi; simpl in *; try discriminate.
  - injection Hi as ->. apply perm_swap.
  - apply IH in Hi.
    apply perm_trans with (h :: v :: t); [apply perm_swap|].
    apply perm_trans with (h :: a :: update i v t); [now constructor | apply perm_swap].
Qed.

Lemma nth_error_update (i j : nat) (v b : A) (x : list A) :
  (i < length x)%nat -> nth_error x j = Some b ->
  nth_error (update i v x) j = Some (if (j =? i)%nat then v else b).
Proof.
  revert i j. induction x as [|h t IH]; intros [|i] [|j] Hi Hj; simpl in *;
    try discriminate; try lia; auto.
  apply IH; [lia | assumption].
Qed.

Lemma swap_perm (i j : nat) (x : list A) : Permutation x (swap i j x).
Proof.
  unfold swap.
  destruct (nth_error x i) as [xi|] eqn:Hi; [|reflexivity].
  destruct (nth_error x j) as [xj|] eqn:Hj; [|reflexivity].
  assert (Hlt : (i < length x)%nat) by (apply nth_error_Some; congruence).
  pose proof (update_perm i xj xi x Hi) as H1.
  assert (Hj' : nth_error (update i xj x) j = Some xj).
  { rewrite (nth_error_update i j xj xj x Hlt Hj). now destruct (j =? i)%nat. }
  pose proof (update_perm j xi xj _ Hj') as H2.
  apply Permutation_cons_inv with xj.
  apply perm_trans with (xi :: update i xj x); assumption.
Qed.

Lemma shuffle_from_perm (E : Env) (i : nat) (x : list A) (w : World) :
  Permutation x (fst (shuffle_from E i x w)).
Proof.
  revert x w. induction i as [|i IH]; intros x w; simpl; [reflexivity|].
  eapply perm_trans; [apply (swap_perm (S i))|apply IH].
Qed.

Lemma shuffle_perm (E : Env) (x : list A) (w : World) :
  Permutation x (fst (shuffle E x w)).
Proof. apply shuffle_from_perm. Qed.
End Shuffle.

(** ** The planned sequence (claims C1 and C9) *)

(** C1.  For every [columns >= 1], [rows >= 1] and [scan_order] among 1,
    2 and 3, whatever the random generator yields, the [sequence] built
    in [run_macro] has exactly [columns * rows] elements, has no
    duplicate, and contains the pair [(r, c)] exactly when
    [0 <= r < rows] and [0 <= c < columns]: it is a permutation of the
    cross-product, here given as the row-major enumeration. *)
Theorem sequence_is_permutation_of_grid (E : Env) (w : World) (C R ord : Z) :
  1 <= C -> 1 <= R -> ord = 1 \/ ord = 2 \/ ord = 3 ->
  let sequence := fst (build_sequence E C R ord w) in
  Z.of_nat (length sequence) = C * R
  /\ NoDup sequence
  /\ (forall r c, In (r, c) sequence <-> 0 <= r < R /\ 0 <= c < C)
  /\ Permutation (list_prod (range R) (range C)) sequence.
Proof.
  intros HC HR Hord sequence.
  assert (Hrm : row_major C R = list_prod (range R) (range C)).
  { unfold row_major. induction (range R) as [|r l IH]; simpl; [reflexivity|].
    now rewrite IH. }
  assert (Hperm : Permutation (row_major C R) sequence).
  { subst sequence. unfold build_sequence.
    destruct (ord =? 1) eqn:H1; [|destruct (ord =? 2) eqn:H2].
    - simpl. apply NoDup_Permutation.
      + apply NoDup_row_major.
      + apply NoDup_column_major.
      + intros [r c]. now rewrite in_row_major, in_column_major.
    - reflexivity.
    - apply shuffle_perm. }
  destruct (enumerates_grid_perm C R _ _ Hperm) as (Hlen & Hnd & Hin).
  { apply row_major_enumerates; lia. }
  rewrite <- Hrm. auto.
Qed.

Lemma sequence_is_permutation_of_grid_witness :
  let sequence :=
    fst (build_sequence (quiet_env (fun n => Z.of_nat n * 7 + 3)) 3 2 3
           (idle_world state_initial CFG_default)) in
  Z.of_nat (length sequence) = 3 * 2
  /\ NoDup sequence
  /\ (forall r c, In (r, c) sequence <-> 0 <= r < 2 /\ 0 <= c < 3)
  /\ Permutation (list_prod (range 2) (range 3)) sequence.
Proof.
  apply (sequence_is_permutation_of_grid
           (quiet_env (fun n => Z.of_nat n * 7 + 3))
           (idle_world state_initial CFG_default) 3 2 3); [lia | lia | ].
  right. right. reflexivity.
Defined.

(** C9.  Under [scan_order = 1] the columns are the outer iteration and
    the rows the inner one: cell [(r, c)] is visited at position
    [c * rows + r]; under [scan_order = 2] the rows are outer and the
    columns inner: cell [(r, c)] is visited at position [r * columns + c];
    this for every grid size and every cell of the grid.  For a 2 x 2
    grid the orders are [(0,0),(1,0),(0,1),(1,1)] and
    [(0,0),(0,1),(1,0),(1,1)]. *)
Theorem scan_orders_visit_as_specified :
  (forall E w C R r c, 0 <= r < R -> 0 <= c < C ->
     nth_error (fst (build_sequence E C R 1 w)) (Z.to_nat (c * R + r)) = Some (r, c))
  /\ (forall E w C R r c, 0 <= r < R -> 0 <= c < C ->
     nth_error (fst (build_sequence E C R 2 w)) (Z.to_nat (r * C + c)) = Some (r, c))
  /\ (forall E w, fst (build_sequence E 2 2 1 w) = [(0, 0); (1, 0); (0, 1); (1, 1)])
  /\ (forall E w, fst (build_sequence E 2 2 2 w) = [(0, 0); (0, 1); (1, 0); (1, 1)]).
Proof.
  split; [|split; [|split]].
  - intros E w C R r c Hr Hc. simpl.
    replace (Z.to_nat (c * R + r)) with (Z.to_nat c * Z.to_nat R + Z.to_nat r)%nat by nia.
    now apply nth_error_column_major.
  - intros E w C R r c Hr Hc. simpl.
    replace (Z.to_nat (r * C + c)) with (Z.to_nat r * Z.to_nat C + Z.to_nat c)%nat by nia.
    now apply nth_error_row_major.
  - reflexivity.
  - reflexivity.
Qed.

Lemma scan_orders_visit_as_specified_witness :
  nth_error (fst (build_sequence (quiet_env (fun _ => 0)) 3 2 1
                    (idle_world state_initial CFG_default)))
            (Z.to_nat (2 * 2 + 1)) = Some (1, 2)
  /\ nth_error (fst (build_sequence (quiet_env (fun _ => 0)) 3 2 2
                       (idle_world state_initial CFG_default)))
               (Z.to_nat (1 * 3 + 2)) = Some (1, 2).
Proof.
  split.
  - apply (proj1 scan_orders_visit_as_specified); lia.
  - apply (proj1 (proj2 scan_orders_visit_as_specified)); lia.
Defined.

(** ** Configuration *)

Lemma to_int_bounds (parsed : option Z) (default min_v max_v : Z) :
  min_v <= max_v -> min_v <= to_int parsed default min_v max_v <= max_v.
Proof. intros H. unfold to_int. lia. Qed.

(** Whatever the file holds, a (re)load leaves at least one column and
    one row, a speed of 1 or 2 and a scan order of 1, 2 or 3. *)
Lemma load_config_bounds (file : Loaded) (w : World) :
  let c := w_cfg (load_config file w) in
  1 <= columns c <= 9999 /\ 1 <= rows c <= 9999
  /\ 1 <= speed c <= 2 /\ 1 <= scan_order c <= 3.
Proof. simpl. repeat split; apply to_int_bounds; lia. Qed.

(** ** Geometry (claims C7, C8 and C10) *)

Local Open Scope Q_scope.

Lemma true_div_ok (a b : Z) :
  (b <> 0)%Z -> true_div a b = Ok (inject_Z a / inject_Z b).
Proof.
  intros Hb. unfold true_div. destruct (Z.eqb_spec b 0); [contradiction | reflexivity].
Qed.

Lemma div_pos (a b : Z) : (0 < a)%Z -> (0 < b)%Z -> 0 < inject_Z a / inject_Z b.
Proof.
  intros Ha Hb. apply Qlt_shift_div_l.
  - change 0 with (inject_Z 0). now rewrite <- Zlt_Qlt.
  - rewrite Qmult_0_l. change 0 with (inject_Z 0). now rewrite <- Zlt_Qlt.
Qed.

Lemma pos_not_degenerate (cw ch : Q) : 0 < cw -> 0 < ch -> degenerate cw ch = false.
Proof.
  intros Hw Hh. unfold degenerate. apply orb_false_iff. split.
  - destruct (Qeq_bool cw 0) eqn:H; [|reflexivity].
    apply Qeq_bool_iff in H. rewrite H in Hw. now apply Qlt_irrefl in Hw.
  - destruct (Qeq_bool ch 0) eqn:H; [|reflexivity].
    apply Qeq_bool_iff in H. rewrite H in Hh. now apply Qlt_irrefl in Hh.
Qed.

(** What [compute_cell_size] does on a complete calibration, by cases on
    the extents. *)
Lemma compute_cell_size_invalid (w : World) (a b c : Point) :
  p00 (w_state w) = Some a -> pTR (w_state w) = Some b -> pBL (w_state w) = Some c ->
  (px b <= px a \/ py c <= py a)%Z ->
  compute_cell_size w = (emit (Warn MsgInvalidCalibration) w, Ok (None, None)).
Proof.
  intros Ha Hb Hc Hext. unfold compute_cell_size. rewrite Ha, Hb, Hc.
  replace ((px b - px a <=? 0)%Z || (py c - py a <=? 0)%Z)%bool with true; [reflexivity|].
  symmetry. apply orb_true_iff. rewrite !Z.leb_le. lia.
Qed.

Lemma compute_cell_size_valid (w : World) (a b c : Point) :
  p00 (w_state w) = Some a -> pTR (w_state w) = Some b -> pBL (w_state w) = Some c ->
  (px a < px b)%Z -> (py a < py c)%Z ->
  (columns (w_cfg w) <> 0)%Z -> (rows (w_cfg w) <> 0)%Z ->
  let cw := inject_Z (px b - px a) / inject_Z (columns (w_cfg w)) in
  let ch := inject_Z (py c - py a) / inject_Z (rows (w_cfg w)) in
  compute_cell_size w = (emit (Info (MsgCellSize cw ch)) w, Ok (Some cw, Some ch)).
Proof.
  intros Ha Hb Hc Hx Hy HC HR cw ch. unfold compute_cell_size. rewrite Ha, Hb, Hc.
  replace ((px b - px a <=? 0)%Z || (py c - py a <=? 0)%Z)%bool with false.
  - now rewrite !true_div_ok by assumption.
  - symmetry. apply orb_false_iff. rewrite !Z.leb_gt. lia.
Qed.

(** C8.  On three captured points, whatever the numbers of columns and
    rows, [compute_cell_size] returns no cell size (the pair of [None]s,
    after the warning about the calibration) exactly when
    [pTR.x <= p00.x] or [pBL.y <= p00.y]; otherwise, on a grid of at
    least one column and one row as [load_config] leaves it, it returns
    a cell size. *)
Theorem cell_size_fails_iff_extent_not_positive (w : World) (a b c : Point) :
  p00 (w_state w) = Some a -> pTR (w_state w) = Some b -> pBL (w_state w) = Some c ->
  (snd (compute_cell_size w) = Ok (None, None)
     <-> (px b <= px a)%Z \/ (py c <= py a)%Z)
  /\ ((px b <= px a)%Z \/ (py c <= py a)%Z ->
      compute_cell_size w = (emit (Warn MsgInvalidCalibration) w, Ok (None, None)))
  /\ (~ ((px b <= px a)%Z \/ (py c <= py a)%Z) ->
      (1 <= columns (w_cfg w))%Z -> (1 <= rows (w_cfg w))%Z ->
      exists cw ch, snd (compute_cell_size w) = Ok (Some cw, Some ch)).
Proof.
  intros Ha Hb Hc. split; [|split].
  - split.
    + intros Hnone. unfold compute_cell_size in Hnone. rewrite Ha, Hb, Hc in Hnone.
      destruct ((px b - px a <=? 0)%Z || (py c - py a <=? 0)%Z)%bool eqn:Hext.
      * apply orb_true_iff in Hext. rewrite !Z.leb_le in Hext. lia.
      * destruct (true_div _ (columns _)); [|discriminate].
        destruct (true_div _ (rows _)); discriminate.
    + intros Hext. now rewrite (compute_cell_size_invalid w a b c).
  - now apply compute_cell_size_invalid.
  - intros Hext HC HR. eexists. eexists.
    rewrite (compute_cell_size_valid w a b c) by (assumption || lia). reflexivity.
Qed.

Lemma cell_size_fails_iff_extent_not_positive_witness :
  let w := idle_world (calibrated (mkPoint 10 10) (mkPoint 10 0) (mkPoint 0 130))
                      (mkConfig 24 12 1 1) in
  (snd (compute_cell_size w) = Ok (None, None) <-> (10 <= 10)%Z \/ (130 <= 10)%Z)
  /\ ((10 <= 10)%Z \/ (130 <= 10)%Z ->
      compute_cell_size w = (emit (Warn MsgInvalidCalibration) w, Ok (None, None)))
  /\ (~ ((10 <= 10)%Z \/ (130 <= 10)%Z) ->
      (1 <= 24)%Z -> (1 <= 12)%Z ->
      exists cw ch, snd (compute_cell_size w) = Ok (Some cw, Some ch)).
Proof.
  intros w.
  apply (cell_size_fails_iff_extent_not_positive w
           (mkPoint 10 10) (mkPoint 10 0) (mkPoint 0 130)); reflexivity.
Defined.

(** C7.  On a valid calibration, [compute_cell_size] returns
    [cell_w = (pTR.x - p00.x) / columns] and
    [cell_h = (pBL.y - p00.y) / rows], and the click target of cell
    [(r, c)] computed by the loop, with the jitter left out, is
    [(p00.x + c*cell_w + cell_w/2, p00.y + r*cell_h + cell_h/2)].  With
    [p00 = (0,0)], [pTR = (240,0)], [pBL = (0,120)], 24 columns and 12
    rows: the cell is 10 by 10, the centre of cell (0,0) is (5,5) and the
    centre of cell (11,23) is (235,115); a whole run without jitter
    makes 288 moves, the first to (5,5) and the last to (235,115). *)
Theorem cell_size_and_centres :
  (forall (w : World) (a b c : Point),
     p00 (w_state w) = Some a -> pTR (w_state w) = Some b ->
     pBL (w_state w) = Some c ->
     (px a < px b)%Z -> (py a < py c)%Z ->
     (1 <= columns (w_cfg w))%Z -> (1 <= rows (w_cfg w))%Z ->
     exists cw ch,
       snd (compute_cell_size w) = Ok (Some cw, Some ch)
       /\ cw == (inject_Z (px b) - inject_Z (px a)) / inject_Z (columns (w_cfg w))
       /\ ch == (inject_Z (py c) - inject_Z (py a)) / inject_Z (rows (w_cfg w))
       /\ forall r k,
            target_x a k cw 0 == inject_Z (px a) + inject_Z k * cw + cw / 2
            /\ target_y a r ch 0 == inject_Z (py a) + inject_Z r * ch + ch / 2)
  /\ (exists cw ch,
        snd (compute_cell_size example_world) = Ok (Some cw, Some ch)
        /\ cw == 10 /\ ch == 10
        /\ target_x (mkPoint 0 0) 0 cw 0 == 5 /\ target_y (mkPoint 0 0) 0 ch 0 == 5
        /\ target_x (mkPoint 0 0) 23 cw 0 == 235
        /\ target_y (mkPoint 0 0) 11 ch 0 == 115)
  /\ (let t := w_trace (fst (run_macro no_jitter example_world)) in
      length (targets t) = 288%nat
      /\ nth_target_is t 0 5 5 = true
      /\ nth_target_is t 287 235 115 = true).
Proof.
  split; [|split].
  - intros w a b c Ha Hb Hc Hx Hy HC HR.
    eexists. eexists. split; [|split; [|split]].
    + rewrite (compute_cell_size_valid w a b c) by (assumption || lia). reflexivity.
    + unfold Qminus. now rewrite <- inject_Z_opp, <- inject_Z_plus.
    + unfold Qminus. now rewrite <- inject_Z_opp, <- inject_Z_plus.
    + intros r k. unfold target_x, target_y. split; ring.
  - eexists. eexists. split; [reflexivity|]. repeat split.
  - vm_compute. repeat split.
Qed.

Lemma cell_size_and_centres_witness :
  exists cw ch,
    snd (compute_cell_size example_world) = Ok (Some cw, Some ch)
    /\ cw == (inject_Z 240 - inject_Z 0) / inject_Z 24
    /\ ch == (inject_Z 120 - inject_Z 0) / inject_Z 12
    /\ forall r k,
         target_x (mkPoint 0 0) k cw 0 == inject_Z 0 + inject_Z k * cw + cw / 2
         /\ target_y (mkPoint 0 0) r ch 0 == inject_Z 0 + inject_Z r * ch + ch / 2.
Proof.
  apply (proj1 cell_size_and_centres example_world
           (mkPoint 0 0) (mkPoint 240 0) (mkPoint 0 120));
    try reflexivity; simpl; lia.
Defined.

(** C10.  When the three points are captured with [pTR.x > p00.x] and
    [pBL.y > p00.y] and the grid has at least one column and one row, the
    cell width and height returned by [compute_cell_size] are strictly
    positive, so the test [cell_w == 0 or cell_h == 0] of [run_macro] is
    false and a start requested while no run is active reaches the start
    delay with that cell size. *)
Theorem valid_calibration_cell_size_positive (w : World) (a b c : Point) :
  p00 (w_state w) = Some a -> pTR (w_state w) = Some b -> pBL (w_state w) = Some c ->
  (px a < px b)%Z -> (py a < py c)%Z ->
  (1 <= columns (w_cfg w))%Z -> (1 <= rows (w_cfg w))%Z ->
  exists cw ch,
    snd (compute_cell_size w) = Ok (Some cw, Some ch)
    /\ 0 < cw /\ 0 < ch
    /\ degenerate cw ch = false
    /\ (running (w_state w) = false ->
        exists w1 L, run_macro_entry w = (w1, Started L)
                     /\ cell_w L = cw /\ cell_h L = ch).
Proof.
  intros Ha Hb Hc Hx Hy HC HR.
  pose proof (compute_cell_size_valid w a b c Ha Hb Hc Hx Hy) as Hcs.
  specialize (Hcs ltac:(lia) ltac:(lia)). cbv zeta in Hcs.
  set (cw := inject_Z (px b - px a) / inject_Z (columns (w_cfg w))) in *.
  set (ch := inject_Z (py c - py a) / inject_Z (rows (w_cfg w))) in *.
  assert (Hcw : 0 < cw) by (apply div_pos; lia).
  assert (Hch : 0 < ch) by (apply div_pos; lia).
  exists cw, ch. split; [now rewrite Hcs|].
  split; [assumption|]. split; [assumption|].
  split; [now apply pos_not_degenerate|].
  intros Hrun. unfold run_macro_entry. rewrite Hrun, Ha, Hb, Hc, Hcs.
  rewrite (pos_not_degenerate cw ch Hcw Hch).
  destruct (timing_profile _) as [[[cdmin cdmax] mvmin] mvmax].
  eexists. eexists. split; [reflexivity|]. split; reflexivity.
Qed.

Lemma valid_calibration_cell_size_positive_witness :
  exists cw ch,
    snd (compute_cell_size example_world) = Ok (Some cw, Some ch)
    /\ 0 < cw /\ 0 < ch
    /\ degenerate cw ch = false
    /\ (running (w_state example_world) = false ->
        exists w1 L, run_macro_entry example_world = (w1, Started L)
                     /\ cell_w L = cw /\ cell_h L = ch).
Proof.
  apply (valid_calibration_cell_size_positive example_world
           (mkPoint 0 0) (mkPoint 240 0) (mkPoint 0 120));
    try reflexivity; simpl; lia.
Defined.

Local Close Scope Q_scope.

(** ** The shared state under the callbacks *)

Lemma count_app (p : Call -> bool) (t u : list Call) :
  count p (t ++ u) = (count p t + count p u)%nat.
Proof. unfold count. now rewrite filter_app, length_app. Qed.

Lemma count_emit (p : Call -> bool) (c : Call) (w : World) :
  count p (w_trace (emit c w)) = (count p (w_trace w) + b2n (p c))%nat.
Proof. simpl. rewrite count_app. unfold count. simpl. now destruct (p c). Qed.

Lemma handle_state_eq (s : Signal) (w : World) :
  w_state (handle s w) = handle_state s (w_state w).
Proof.
  destruct s; simpl; try reflexivity.
  unfold _panic. destruct (running (w_state w)) eqn:Hr; simpl; [reflexivity|].
  destruct (w_state w); simpl in *. now subst.
Qed.

Lemma handle_tick_rpos (s : Signal) (w : World) :
  w_tick (handle s w) = w_tick w /\ w_rpos (handle s w) = w_rpos w.
Proof.
  destruct s; simpl; auto. unfold _panic. now destruct (running (w_state w)).
Qed.

Lemma handle_count (p : Call -> bool) (s : Signal) (w : World) :
  logless p -> count p (w_trace (handle s w)) = count p (w_trace w).
Proof.
  intros Hp.
  assert (Hi : forall m w0, count p (w_trace (emit (Info m) w0)) = count p (w_trace w0)).
  { intros m w0. rewrite count_emit. destruct (Hp m) as [-> _]. simpl. lia. }
  assert (Hw : forall m w0, count p (w_trace (emit (Warn m) w0)) = count p (w_trace w0)).
  { intros m w0. rewrite count_emit. destruct (Hp m) as [_ ->]. simpl. lia. }
  destruct s; simpl handle.
  - unfold _panic. destruct (running (w_state w)); [now rewrite Hw | reflexivity].
  - unfold capture_p00. now rewrite Hi.
  - unfold capture_pTR. now rewrite Hi.
  - unfold capture_pBL. now rewrite Hi.
  - unfold reload_config_hotkey, load_config. now rewrite !Hi.
Qed.

Lemma handle_all_spec (p : Call -> bool) (l : list Signal) (w : World) :
  logless p ->
  w_state (handle_all l w) = fold_left (fun st s => handle_state s st) l (w_state w)
  /\ w_tick (handle_all l w) = w_tick w
  /\ w_rpos (handle_all l w) = w_rpos w
  /\ count p (w_trace (handle_all l w)) = count p (w_trace w).
Proof.
  intros Hp. revert w. induction l as [|s l IH]; intros w; simpl; [auto|].
  destruct (IH (handle s w)) as (H1 & H2 & H3 & H4).
  destruct (handle_tick_rpos s w) as [Ht Hr].
  rewrite H1, H2, H3, H4, handle_state_eq, Ht, Hr, handle_count by assumption. auto.
Qed.

Lemma logless_false : logless (fun _ => false).
Proof. intros m. auto. Qed.

Lemma deliver_state_eq (E : Env) (w : World) :
  w_state (deliver E w) = deliver_state E (w_tick w) (w_state w).
Proof. unfold deliver. simpl. apply (handle_all_spec _ _ _ logless_false). Qed.

Lemma deliver_tick (E : Env) (w : World) : w_tick (deliver E w) = S (w_tick w).
Proof.
  unfold deliver. simpl. f_equal. apply (handle_all_spec _ _ _ logless_false).
Qed.

Lemma deliver_rpos (E : Env) (w : World) : w_rpos (deliver E w) = w_rpos w.
Proof. unfold deliver. simpl. apply (handle_all_spec _ _ _ logless_false). Qed.

Lemma deliver_count (p : Call -> bool) (E : Env) (w : World) :
  logless p -> count p (w_trace (deliver E w)) = count p (w_trace w).
Proof. intros Hp. unfold deliver. simpl. now apply handle_all_spec. Qed.

Lemma deliver_state_running (E : Env) (t : nat) (st : State) :
  running (deliver_state E t st) = running st && negb (panicked E t).
Proof.
  unfold deliver_state, panicked. revert st.
  induction (sched E t) as [|s l IH]; intros st; simpl.
  - now rewrite andb_true_r.
  - rewrite IH. destruct s; simpl; try reflexivity.
    now rewrite andb_false_r.
Qed.

Lemma deliver_state_p00 (E : Env) (t : nat) (st : State) :
  p00 st <> None -> p00 (deliver_state E t st) <> None.
Proof.
  unfold deliver_state. revert st.
  induction (sched E t) as [|s l IH]; intros st Hp; simpl; [assumption|].
  apply IH. destruct s; simpl; congruence.
Qed.

Lemma alive_app (E : Env) (t n m : nat) :
  alive E t (n + m) = alive E t n && alive E (t + n) m.
Proof. unfold alive. now rewrite seq_app, forallb_app. Qed.

Lemma alive_true (E : Env) (t n : nat) :
  alive E t n = true <-> forall i, (t <= i < t + n)%nat -> panicked E i = false.
Proof.
  unfold alive. rewrite forallb_forall. split.
  - intros H i Hi. apply negb_true_iff. apply H. apply in_seq. lia.
  - intros H i Hi. apply in_seq in Hi. apply negb_true_iff. apply H. lia.
Qed.

Lemma alive_false (E : Env) (t n i : nat) :
  (t <= i < t + n)%nat -> panicked E i = true -> alive E t n = false.
Proof.
  intros Hi Hp. destruct (alive E t n) eqn:Ha; [|reflexivity].
  rewrite alive_true in Ha. rewrite (Ha i Hi) in Hp. discriminate.
Qed.

(** ** One iteration of the click loop *)

Lemma unit_rest_state (L : Locals) (sequence : list (Z * Z)) (idx : nat) (r c : Z)
  (w : World) :
  w_state (unit_rest L sequence idx r c w) = w_state w.
Proof.
  unfold unit_rest.
  destruct (order L =? 1); [destruct (unit_ends snd sequence idx c); auto|].
  destruct (order L =? 2); [destruct (unit_ends fst sequence idx r); auto|]. auto.
Qed.

Lemma unit_rest_tick (L : Locals) (sequence : list (Z * Z)) (idx : nat) (r c : Z)
  (w : World) :
  w_tick (unit_rest L sequence idx r c w) = w_tick w.
Proof.
  unfold unit_rest.
  destruct (order L =? 1); [destruct (unit_ends snd sequence idx c); auto|].
  destruct (order L =? 2); [destruct (unit_ends fst sequence idx r); auto|]. auto.
Qed.

Lemma unit_rest_count (p : Call -> bool) (L : Locals) (sequence : list (Z * Z))
  (idx : nat) (r c : Z) (w : World) :
  count p (w_trace (unit_rest L sequence idx r c w))
  = (count p (w_trace w)
     + if unit_due L sequence idx r c
       then b2n (p (Sleep UnitSleep (Uniform UNIT_REST_MIN UNIT_REST_MAX)))
       else 0)%nat.
Proof.
  unfold unit_rest, unit_due.
  destruct (order L =? 1); [destruct (unit_ends snd sequence idx c)|
    destruct (order L =? 2); [destruct (unit_ends fst sequence idx r)|]];
    rewrite ?count_emit; lia.
Qed.

Lemma randint_eq (E : Env) (a b : Z) (w : World) :
  randint E a b w = (a + tape E (w_rpos w) mod (b - a + 1), next_draw w).
Proof. reflexivity. Qed.

Lemma emit_state (c : Call) (w : World) : w_state (emit c w) = w_state w.
Proof. reflexivity. Qed.
Lemma emit_tick (c : Call) (w : World) : w_tick (emit c w) = w_tick w.
Proof. reflexivity. Qed.
Lemma next_draw_state (w : World) : w_state (next_draw w) = w_state w.
Proof. reflexivity. Qed.
Lemma next_draw_tick (w : World) : w_tick (next_draw w) = w_tick w.
Proof. reflexivity. Qed.
Lemma next_draw_trace (w : World) : w_trace (next_draw w) = w_trace w.
Proof. reflexivity. Qed.

Lemma logless_click : logless is_click.
Proof. intros m. auto. Qed.
Lemma logless_move : logless is_move.
Proof. intros m. auto. Qed.
Lemma logless_unit_rest : logless is_unit_rest.
Proof. intros m. auto. Qed.
Lemma logless_key_up : logless is_key_up.
Proof. intros m. auto. Qed.
Lemma logless_key_down : logless is_key_down.
Proof. intros m. auto. Qed.

Create HintDb world.
Create Rewrite HintDb world_rw.

#[local] Hint Resolve logless_click logless_move logless_unit_rest
  logless_key_up logless_key_down : world.

#[local] Hint Rewrite emit_state emit_tick next_draw_state next_draw_tick
  next_draw_trace deliver_state_eq deliver_tick unit_rest_state unit_rest_tick
  deliver_state_running count_emit unit_rest_count : world_rw.
#[local] Hint Rewrite deliver_count using (auto with world) : world_rw.

Ltac world := autorewrite with world_rw.

Ltac panic_cases :=
  repeat match goal with
         | |- context [panicked ?E ?t] => destruct (panicked E t)
         end;
  reflexivity.

Lemma loop_body_alive (E : Env) (L : Locals) (sequence : list (Z * Z)) (idx : nat)
  (r c clicks nb : Z) (w : World) :
  running (w_state w) = true -> panicked E (w_tick w) = false ->
  p00 (w_state w) <> None ->
  move_fails E idx = false -> click_fails E idx = false ->
  exists w' nb',
    loop_body E L sequence idx (r, c) clicks nb w = (w', Continue (clicks + 1) nb')
    /\ w_tick w' = (w_tick w + 5)%nat
    /\ p00 (w_state w') <> None
    /\ running (w_state w') = alive E (w_tick w) 5
    /\ count is_click (w_trace w') = (count is_click (w_trace w) + 1)%nat
    /\ count is_move (w_trace w') = (count is_move (w_trace w) + 1)%nat
    /\ count is_unit_rest (w_trace w')
       = (count is_unit_rest (w_trace w)
          + b2n (running (w_state w') && unit_due L sequence idx r c))%nat.
Proof.
  intros Hrun Hnp Hp00 Hmv Hck.
  unfold loop_body.
  set (w1 := deliver E w).
  assert (H1 : running (w_state w1) = true).
  { subst w1. world. now rewrite Hrun, Hnp. }
  rewrite H1. cbn [negb].
  set (w2 := deliver E w1).
  assert (Hp2 : p00 (w_state w2) <> None).
  { subst w2 w1. rewrite !deliver_state_eq. now do 2 apply deliver_state_p00. }
  destruct (p00 (w_state w2)) as [ox|] eqn:Hox; [|contradiction].
  rewrite randint_eq.
  set (w3 := deliver E (next_draw w2)).
  assert (Hp3 : p00 (w_state w3) <> None).
  { subst w3. rewrite deliver_state_eq. apply deliver_state_p00.
    rewrite next_draw_state. congruence. }
  destruct (p00 (w_state w3)) as [oy|] eqn:Hoy; [|contradiction].
  rewrite randint_eq, Hmv, Hck.
  set (x := target_x _ _ _ _). set (y := target_y _ _ _ _).
  set (w4 := deliver E _).
  assert (H4 : w_tick w4 = (w_tick w + 4)%nat /\ p00 (w_state w4) <> None
               /\ running (w_state w4) = alive E (w_tick w) 4
               /\ count is_click (w_trace w4) = (count is_click (w_trace w) + 1)%nat
               /\ count is_move (w_trace w4) = (count is_move (w_trace w) + 1)%nat
               /\ count is_unit_rest (w_trace w4) = count is_unit_rest (w_trace w)).
  { subst w4 w3 w2 w1. world. cbn [is_click is_move is_unit_rest b2n].
    repeat split; try lia.
    - now repeat apply deliver_state_p00.
    - rewrite Hrun. unfold alive. cbn [seq forallb]. panic_cases. }
  clearbody w4. destruct H4 as (Ht4 & Hp4 & Hr4 & Hc4 & Hm4 & Hu4).
  assert (Hlast : forall w5, w_state w5 = w_state w4 -> w_tick w5 = w_tick w4 ->
            (forall p, p = is_click \/ p = is_move \/ p = is_unit_rest ->
               count p (w_trace w5) = count p (w_trace w4)) ->
            let w6 := deliver E w5 in
            let w7 := if running (w_state w6) then unit_rest L sequence idx r c w6 else w6 in
            w_tick w7 = (w_tick w + 5)%nat
            /\ p00 (w_state w7) <> None
            /\ running (w_state w7) = alive E (w_tick w) 5
            /\ count is_click (w_trace w7) = (count is_click (w_trace w) + 1)%nat
            /\ count is_move (w_trace w7) = (count is_move (w_trace w) + 1)%nat
            /\ count is_unit_rest (w_trace w7)
               = (count is_unit_rest (w_trace w)
                  + b2n (running (w_state w7) && unit_due L sequence idx r c))%nat).
  { intros w5 Hs Ht Hc w6 w7.
    assert (Hr6 : running (w_state w6) = alive E (w_tick w) 5).
    { subst w6. world. rewrite Hs, Ht, Hr4, Ht4.
      change 5%nat with (4 + 1)%nat. rewrite alive_app. f_equal.
      unfold alive. cbn [seq forallb]. now rewrite andb_true_r. }
    assert (Hs7 : w_state w7 = w_state w6).
    { subst w7. destruct (running (w_state w6)); [apply unit_rest_state | reflexivity]. }
    rewrite Hs7, Hr6.
    subst w7. destruct (running (w_state w6)) eqn:Hrun6; rewrite <- Hr6;
      subst w6; world; rewrite ?Hc by auto; rewrite ?Ht, ?Hs, ?Ht4, ?Hc4, ?Hm4, ?Hu4;
      cbn [is_click is_move is_unit_rest b2n andb];
      (repeat split; try (destruct (unit_due L sequence idx r c); simpl; lia);
       now apply deliver_state_p00; rewrite ?Hs). }
  destruct ((nb <=? clicks + 1) && running (w_state w4)).
  - rewrite randint_eq. eexists. eexists. split; [reflexivity|].
    apply Hlast; try reflexivity.
    intros p [-> | [-> | ->]]; world; cbn; lia.
  - eexists. eexists. split; [reflexivity|].
    apply Hlast; reflexivity.
Qed.

(** ** The whole loop *)

Lemma keys_only_key_up : keys_only is_key_up.
Proof. repeat split. Qed.
Lemma keys_only_key_down : keys_only is_key_down.
Proof. repeat split. Qed.

(** Whatever happens in an iteration, the keyboard is not touched. *)
Lemma loop_body_keys (p : Call -> bool) (E : Env) (L : Locals)
  (sequence : list (Z * Z)) (idx : nat) (rc : Z * Z) (clicks nb : Z) (w : World) :
  keys_only p ->
  count p (w_trace (fst (loop_body E L sequence idx rc clicks nb w)))
  = count p (w_trace w).
Proof.
  intros (Hl & Hm & Hc & Hs). destruct rc as [r c]. unfold loop_body.
  destruct (negb _); [cbn [fst]; now world|].
  destruct (p00 _); [|cbn [fst]; now world].
  rewrite randint_eq.
  destruct (p00 _); [|cbn [fst]; now world].
  rewrite randint_eq.
  destruct (move_fails E idx); [cbn [fst]; now world|].
  destruct (click_fails E idx); [cbn [fst]; world; rewrite Hm; simpl; lia|].
  destruct (_ && _); [rewrite randint_eq|];
    (destruct (running _); cbn [fst]; world;
     rewrite ?Hm, ?Hc, ?Hs;
     repeat match goal with |- context [if ?b then _ else _] => destruct b end;
     simpl; lia).
Qed.

Lemma click_loop_keys (p : Call -> bool) (E : Env) (L : Locals)
  (sequence : list (Z * Z)) (rest : list (Z * Z)) :
  keys_only p ->
  forall idx clicks nb w,
    count p (w_trace (fst (click_loop E L sequence idx rest clicks nb w)))
    = count p (w_trace w).
Proof.
  intros Hp. induction rest as [|rc rest IH]; intros idx clicks nb w; simpl;
    [reflexivity|].
  pose proof (loop_body_keys p E L sequence idx rc clicks nb w Hp) as Hb.
  destruct (loop_body E L sequence idx rc clicks nb w) as [w' [c' n'| |e]];
    simpl in *; rewrite ?IH; assumption.
Qed.

Lemma shuffle_from_world {A : Type} (E : Env) (i : nat) (x : list A) (w : World) :
  let w' := snd (shuffle_from E i x w) in
  w_state w' = w_state w /\ w_tick w' = w_tick w /\ w_trace w' = w_trace w.
Proof.
  revert x w. induction i as [|i IH]; intros x w; simpl; [auto|].
  destruct (IH (swap (S i) (Z.to_nat (tape E (w_rpos w) mod (Z.pos (Pos.of_succ_nat i) + 1))) x)
               (next_draw w)) as (H1 & H2 & H3).
  auto.
Qed.

(** Building the sequence only consumes random draws. *)
Lemma build_sequence_world (E : Env) (C R ord : Z) (w : World) :
  let w' := snd (build_sequence E C R ord w) in
  w_state w' = w_state w /\ w_tick w' = w_tick w /\ w_trace w' = w_trace w.
Proof.
  unfold build_sequence.
  destruct (ord =? 1); [simpl; auto|]. destruct (ord =? 2); [simpl; auto|].
  apply shuffle_from_world.
Qed.

Lemma build_sequence_length (E : Env) (C R ord : Z) (w : World) :
  length (fst (build_sequence E C R ord w)) = (Z.to_nat C * Z.to_nat R)%nat.
Proof.
  unfold build_sequence.
  destruct (ord =? 1); [simpl; apply column_major_length|].
  destruct (ord =? 2); [simpl; rewrite row_major_length; lia|].
  rewrite <- (Permutation_length (shuffle_perm E (row_major C R) w)).
  rewrite row_major_length. lia.
Qed.

Lemma try_block_keys (p : Call -> bool) (E : Env) (L : Locals) (w : World) :
  keys_only p ->
  count p (w_trace (fst (try_block E L w))) = count p (w_trace w).
Proof.
  intros Hp. unfold try_block.
  destruct (build_sequence E (cols L) (rows_ L) (order L) w) as [sequence w1] eqn:Hb.
  pose proof (build_sequence_world E (cols L) (rows_ L) (order L) w) as Hw.
  rewrite Hb in Hw. simpl in Hw. destruct Hw as (_ & _ & Htr).
  rewrite randint_eq.
  pose proof (click_loop_keys p E L sequence sequence Hp 0%nat 0
                (BURST_MIN + tape E (w_rpos w1) mod (BURST_MAX - BURST_MIN + 1))
                (next_draw w1)) as Hl.
  destruct (click_loop _ _ _ _ _ _ _ _) as [w2 [n|e]]; simpl in *.
  - rewrite count_app, Hl, Htr. destruct Hp as (Hlog & _).
    unfold count at 2. simpl. destruct (Hlog (MsgDone n)) as [-> _]. simpl. lia.
  - now rewrite Hl, Htr.
Qed.

(** ** Entering the run *)

Lemma set_state_trace (s : State) (w : World) : w_trace (set_state s w) = w_trace w.
Proof. reflexivity. Qed.
Lemma set_state_tick (s : State) (w : World) : w_tick (set_state s w) = w_tick w.
Proof. reflexivity. Qed.
Lemma set_state_state (s : State) (w : World) : w_state (set_state s w) = s.
Proof. reflexivity. Qed.

#[local] Hint Rewrite set_state_trace set_state_tick set_state_state : world_rw.

Lemma compute_cell_size_world (w : World) :
  let w1 := fst (compute_cell_size w) in
  w_state w1 = w_state w /\ w_cfg w1 = w_cfg w /\ w_tick w1 = w_tick w
  /\ w_rpos w1 = w_rpos w
  /\ (forall p, logless p -> count p (w_trace w1) = count p (w_trace w)).
Proof.
  assert (Hlog : forall p c, logless p -> (exists m, c = Info m \/ c = Warn m) ->
                 count p (w_trace (emit c w)) = count p (w_trace w)).
  { intros p c Hp (m & [-> | ->]); rewrite count_emit;
      destruct (Hp m) as [H1 H2]; rewrite ?H1, ?H2; simpl; lia. }
  unfold compute_cell_size.
  destruct (p00 (w_state w)) as [a|]; [|simpl; auto].
  destruct (pTR (w_state w)) as [b|]; [|simpl; auto].
  destruct (pBL (w_state w)) as [c|]; [|simpl; auto].
  destruct (_ || _); [simpl; repeat split; intros; apply Hlog; eauto|].
  destruct (true_div _ (columns _)); [|simpl; auto].
  destruct (true_div _ (rows _)); [|simpl; auto].
  simpl; repeat split; intros; apply Hlog; eauto.
Qed.

(** What is known once [run_macro] has reached its start delay. *)
Lemma run_macro_entry_started (w w1 : World) (L : Locals) :
  run_macro_entry w = (w1, Started L) ->
  running (w_state w) = false
  /\ p00 (w_state w) <> None
  /\ w_state w1 = w_state w /\ w_cfg w1 = w_cfg w /\ w_tick w1 = w_tick w
  /\ (forall p, logless p -> count p (w_trace w1) = count p (w_trace w))
  /\ cols L = columns (w_cfg w) /\ rows_ L = rows (w_cfg w)
  /\ order L = scan_order (w_cfg w).
Proof.
  unfold run_macro_entry. intros H.
  destruct (running (w_state w)); [discriminate|].
  destruct (p00 (w_state w)) as [a|]; [|discriminate].
  destruct (pTR (w_state w)) as [b|]; [|discriminate].
  destruct (pBL (w_state w)) as [c|]; [|discriminate].
  pose proof (compute_cell_size_world w) as Hcs.
  destruct (compute_cell_size w) as [w0 [[[cw|] [ch|]]|e]]; try discriminate.
  destruct (degenerate cw ch); [discriminate|].
  destruct (timing_profile (w_cfg w0)) as [[[cdmin cdmax] mvmin] mvmax].
  injection H as <- <-. simpl in *.
  destruct Hcs as (Hs & Hc & Ht & Hr & Hcount).
  rewrite Hs, Hc, Ht. repeat split; try congruence.
  intros p Hp. rewrite count_app, Hcount by assumption.
  unfold count at 2. simpl. destruct (Hp (MsgStarting cw ch (speed (w_cfg w)) (scan_order (w_cfg w)))) as [-> _].
  simpl. lia.
Qed.

(** ** The modifier key (claim C6) *)

(** When [pag.keyDown] and [pag.keyUp] return, the run is the start
    delay, the key press, the [try] suite and the two statements of the
    [finally]. *)
Lemma run_macro_body_keys_work (E : Env) (L : Locals) (w : World) :
  keys_work E ->
  run_macro_body E L w
  = let w0 := deliver E (emit (Sleep StartSleep (Fixed START_DELAY)) w) in
    let (w3, res) :=
      try_block E L (emit KeyDown (set_state (set_running true (w_state w0)) w0)) in
    (release w3, res).
Proof.
  intros [Hd Hu]. unfold run_macro_body, finally_block. rewrite Hd, Hu.
  cbv zeta. now destruct (try_block E L _).
Qed.

(** When [pag.keyDown] and [pag.keyUp] return: once [run_macro] has
    reached its start delay, and whatever the hotkey callbacks, the
    random generator and [pag.moveTo] and [pag.click] do afterwards (the
    loop runs to its end, is cancelled by the panic hotkey, or a move or
    a click raises at some step), the run presses shift once and
    releases it once, the release is the last call the run makes, before
    the return or the propagation of the exception, and
    [state["running"]] is left false. *)
Lemma shift_released_once_when_keys_work (E : Env) (w w1 : World) (L : Locals) :
  keys_work E ->
  run_macro_entry w = (w1, Started L) ->
  let w' := fst (run_macro E w) in
  (exists pre, w_trace w' = pre ++ [KeyUp])
  /\ count is_key_down (w_trace w') = (count is_key_down (w_trace w) + 1)%nat
  /\ count is_key_up (w_trace w') = (count is_key_up (w_trace w) + 1)%nat
  /\ running (w_state w') = false
  /\ ((exists n, snd (run_macro E w) = Done n)
      \/ (exists e, snd (run_macro E w) = Failed e)).
Proof.
  intros Hkeys Hentry.
  destruct (run_macro_entry_started w w1 L Hentry) as (_ & _ & _ & _ & _ & Hcount & _).
  unfold run_macro. rewrite Hentry, (run_macro_body_keys_work E L w1 Hkeys).
  cbv zeta. unfold release.
  set (w2 := emit KeyDown _).
  assert (Hd : count is_key_down (w_trace w2) = (count is_key_down (w_trace w) + 1)%nat).
  { subst w2. world. rewrite Hcount by auto with world. simpl. lia. }
  assert (Hu : count is_key_up (w_trace w2) = count is_key_up (w_trace w)).
  { subst w2. world. rewrite Hcount by auto with world. simpl. lia. }
  pose proof (try_block_keys is_key_down E L w2 keys_only_key_down) as Hkd.
  pose proof (try_block_keys is_key_up E L w2 keys_only_key_up) as Hku.
  destruct (try_block E L w2) as [w3 [n|e]]; simpl in *;
    (split; [eexists; reflexivity|]);
    rewrite !count_app, Hkd, Hku, Hd, Hu; unfold count; simpl;
    repeat split; eauto; lia.
Qed.

(** When [pag.keyUp] raises in the [finally], whatever happened in the
    loop: the call of [run_macro] ends with that exception, shift has
    been pressed once and is not released. *)
Lemma key_up_failure_keeps_shift_down (E : Env) (w w1 : World) (L : Locals) :
  key_down_fails E = false -> key_up_fails E = true ->
  run_macro_entry w = (w1, Started L) ->
  let w' := fst (run_macro E w) in
  snd (run_macro E w) = Failed KeyUpFailed
  /\ count is_key_down (w_trace w') = (count is_key_down (w_trace w) + 1)%nat
  /\ count is_key_up (w_trace w') = count is_key_up (w_trace w).
Proof.
  intros Hdown Hup Hentry.
  destruct (run_macro_entry_started w w1 L Hentry) as (_ & _ & _ & _ & _ & Hcount & _).
  unfold run_macro. rewrite Hentry. unfold run_macro_body, finally_block.
  rewrite Hdown, Hup.
  set (w2 := emit KeyDown _).
  assert (Hd : count is_key_down (w_trace w2) = (count is_key_down (w_trace w) + 1)%nat).
  { subst w2. world. rewrite Hcount by auto with world. simpl. lia. }
  assert (Hu : count is_key_up (w_trace w2) = count is_key_up (w_trace w)).
  { subst w2. world. rewrite Hcount by auto with world. simpl. lia. }
  pose proof (try_block_keys is_key_down E L w2 keys_only_key_down) as Hkd.
  pose proof (try_block_keys is_key_up E L w2 keys_only_key_up) as Hku.
  destruct (try_block E L w2) as [w3 r]; cbn [fst snd] in *.
  split; [reflexivity|]. split; congruence.
Qed.

(** C6, on the code.  The loop exits by an exception of the collaborator
    that [pag.keyUp] meets too in the [finally] (the fail-safe abort):
    the first cell has been clicked with shift down, [pag.moveTo]
    raises at the second step, [pag.keyUp] raises in the [finally], and
    the call ends with that exception.  Shift has been pressed once and
    is never released, [state["running"]] is still true, and the next
    start request, with a collaborator that works again, is rejected as
    already running. *)
Theorem shift_stays_down_when_key_up_raises :
  let w' := fst (run_macro fail_safe_at_step_1 two_cells) in
  snd (run_macro fail_safe_at_step_1 two_cells) = Failed KeyUpFailed
  /\ count is_key_down (w_trace w') = 1%nat
  /\ count is_key_up (w_trace w') = 0%nat
  /\ count is_click (w_trace w') = 1%nat
  /\ running (w_state w') = true
  /\ snd (run_macro no_jitter w') = NotStarted
  /\ last_calls 1 (w_trace (fst (run_macro no_jitter w'))) = [Warn MsgAlreadyRunning].
Proof. vm_compute. repeat split. Qed.

(** The three ways out of the loop, on the grid of two cells, when
    [pag.keyDown] and [pag.keyUp] return: the loop runs to its end; a
    panic delivered before the second step cancels it; [pag.moveTo] or
    [pag.click] raises.  Each time the last call is the release of
    shift. *)
Example exits_of_the_loop :
  let cancel := mkEnv (fun t => if (t =? 6)%nat then [Panic] else [])
                      (fun _ => 2) (fun _ => false) (fun _ => false) false false in
  let move_raises := mkEnv (fun _ => []) (fun _ => 2) (fun i => (i =? 0)%nat)
                           (fun _ => false) false false in
  let click_raises := mkEnv (fun _ => []) (fun _ => 2) (fun _ => false)
                            (fun i => (i =? 1)%nat) false false in
  let ends E := (snd (run_macro E two_cells),
                 last_calls 1 (w_trace (fst (run_macro E two_cells))),
                 count is_click (w_trace (fst (run_macro E two_cells)))) in
  ends no_jitter = (Done 2, [KeyUp], 2%nat)
  /\ ends cancel = (Done 1, [KeyUp], 1%nat)
  /\ ends move_raises = (Failed (MoveToFailed 0), [KeyUp], 0%nat)
  /\ ends click_raises = (Failed (ClickFailed 1), [KeyUp], 1%nat).
Proof. vm_compute. repeat split. Qed.

(** ** Cancellation (claim C5) *)

Lemma loop_body_break (E : Env) (L : Locals) (sequence : list (Z * Z)) (idx : nat)
  (rc : Z * Z) (clicks nb : Z) (w : World) :
  running (w_state (deliver E w)) = false ->
  loop_body E L sequence idx rc clicks nb w = (deliver E w, Break).
Proof. intros H. destruct rc as [r c]. unfold loop_body. now rewrite H. Qed.

Lemma alive_1 (E : Env) (t : nat) : alive E t 1 = negb (panicked E t).
Proof. unfold alive. cbn [seq forallb]. apply andb_true_r. Qed.

Lemma click_loop_cancel (E : Env) (L : Locals) (sequence : list (Z * Z)) (T : nat) :
  (forall i, move_fails E i = false) -> (forall i, click_fails E i = false) ->
  forall (k : nat) rest idx clicks nb w,
    p00 (w_state w) <> None ->
    w_tick w = (T + 5 * idx)%nat ->
    running (w_state w) = alive E T (5 * idx) ->
    (k <= length rest)%nat ->
    alive E T (5 * (idx + k) - 4) = true ->
    ((k < length rest)%nat -> alive E T (5 * (idx + k) + 1) = false) ->
    exists w',
      click_loop E L sequence idx rest clicks nb w = (w', Ok (clicks + Z.of_nat k))
      /\ count is_click (w_trace w') = (count is_click (w_trace w) + k)%nat
      /\ count is_move (w_trace w') = (count is_move (w_trace w) + k)%nat.
Proof.
  intros Hmv Hck. induction k as [|k IH]; intros rest idx clicks nb w Hp Ht Hr Hk Hal Hpanic.
  - destruct rest as [|rc rest].
    + exists w. simpl. rewrite Z.add_0_r. auto.
    + cbn [length] in Hpanic. specialize (Hpanic ltac:(lia)).
      rewrite Nat.add_0_r, alive_app, alive_1 in Hpanic.
      cbn [click_loop]. rewrite loop_body_break.
      * exists (deliver E w). rewrite Z.add_0_r. world. auto.
      * world. now rewrite Hr, Ht.
  - destruct rest as [|[r c] rest]; [cbn [length] in Hk; lia|].
    replace (5 * (idx + S k) - 4)%nat with (5 * idx + 1 + 5 * k)%nat in Hal by lia.
    rewrite !alive_app, alive_1 in Hal.
    apply andb_prop in Hal as [Hal Hal2]. apply andb_prop in Hal as [Hal0 Hal1].
    destruct (loop_body_alive E L sequence idx r c clicks nb w)
      as (w' & nb' & Hbody & Ht' & Hp' & Hr' & Hc' & Hm' & _); auto.
    { now rewrite Hr. } { rewrite Ht. now apply negb_true_iff. }
    destruct (IH rest (S idx) (clicks + 1) nb' w') as (w'' & Hloop & Hc'' & Hm'').
    + assumption.
    + lia.
    + rewrite Hr', Ht. replace (5 * S idx)%nat with (5 * idx + 5)%nat by lia.
      now rewrite alive_app, Hal0.
    + cbn [length] in Hk. lia.
    + replace (5 * (S idx + k) - 4)%nat with (5 * idx + 1 + 5 * k)%nat by lia.
      now rewrite !alive_app, alive_1, Hal0, Hal1, Hal2.
    + intros Hlt. replace (S idx + k)%nat with (idx + S k)%nat by lia.
      apply Hpanic. cbn [length]. lia.
    + exists w''. cbn [click_loop]. rewrite Hbody, Hloop, Hc'', Hm'', Hc', Hm'.
      repeat split; try lia. do 2 f_equal. lia.
Qed.

(** C5.  Let the run have reached its start delay at tick [t0], let [n]
    be the length of the planned sequence and [k <= n], and let the
    collaborator not fail ([pag.moveTo], [pag.click], [pag.keyDown] and
    [pag.keyUp] return).  If no panic is delivered after the start
    delay up to the top-of-loop check of any step before [k], and (when
    [k < n]) one is delivered by the top-of-loop check of step [k], then
    the run returns normally, the count it logs is [k], that log and the
    release of shift are the last two things it does, and it has made
    exactly [k] moves and [k] clicks: none after the check that saw the
    flag cleared. *)
Theorem cancel_before_step_reports_k (E : Env) (w w1 : World) (L : Locals) (k : nat) :
  run_macro_entry w = (w1, Started L) ->
  (forall i, move_fails E i = false) -> (forall i, click_fails E i = false) ->
  keys_work E ->
  (k <= Z.to_nat (columns (w_cfg w)) * Z.to_nat (rows (w_cfg w)))%nat ->
  (forall i t, (i < k)%nat -> (w_tick w < t <= top_of_step (w_tick w) i)%nat ->
               panicked E t = false) ->
  ((k < Z.to_nat (columns (w_cfg w)) * Z.to_nat (rows (w_cfg w)))%nat ->
   exists t, (w_tick w < t <= top_of_step (w_tick w) k)%nat /\ panicked E t = true) ->
  let w' := fst (run_macro E w) in
  snd (run_macro E w) = Done (Z.of_nat k)
  /\ (exists pre, w_trace w' = pre ++ [Info (MsgDone (Z.of_nat k)); KeyUp])
  /\ count is_click (w_trace w') = (count is_click (w_trace w) + k)%nat
  /\ count is_move (w_trace w') = (count is_move (w_trace w) + k)%nat.
Proof.
  intros Hentry Hmv Hck Hkeys Hk Hquiet Hpanic.
  destruct (run_macro_entry_started w w1 L Hentry)
    as (_ & Hp00 & Hs1 & _ & Ht1 & Hcount & HC & HR & _).
  unfold run_macro. rewrite Hentry, (run_macro_body_keys_work E L w1 Hkeys).
  cbv zeta. unfold try_block.
  set (w2 := emit KeyDown _).
  pose proof (build_sequence_world E (cols L) (rows_ L) (order L) w2) as Hbw.
  pose proof (build_sequence_length E (cols L) (rows_ L) (order L) w2) as Hlen.
  destruct (build_sequence E (cols L) (rows_ L) (order L) w2) as [sequence w3].
  cbn [fst snd] in Hbw, Hlen. destruct Hbw as (Hs3 & Ht3 & Htr3).
  rewrite HC, HR in Hlen. rewrite randint_eq.
  set (nb := BURST_MIN + _). unfold top_of_step in *.
  assert (Ht2 : w_tick w2 = (w_tick w + 1)%nat) by (subst w2; world; lia).
  destruct (click_loop_cancel E L sequence (w_tick w + 1) Hmv Hck k sequence 0%nat 0 nb
              (next_draw w3)) as (w4 & Hloop & Hc4 & Hm4).
  - rewrite next_draw_state, Hs3. subst w2. world.
    apply deliver_state_p00. now rewrite Hs1.
  - rewrite next_draw_tick, Ht3, Ht2. lia.
  - rewrite next_draw_state, Hs3. subst w2. now world.
  - now rewrite Hlen.
  - apply alive_true. intros t Ht. destruct k as [|k]; [lia|].
    apply (Hquiet k); lia.
  - rewrite Hlen. intros Hlt. destruct (Hpanic Hlt) as (t & Ht & Hpt).
    apply (alive_false E _ _ t); [lia | assumption].
  - rewrite Hloop. cbn [fst snd]. rewrite Z.add_0_l. split; [reflexivity|].
    split.
    + exists (w_trace w4). unfold release. cbn.
      now rewrite <- app_assoc.
    + unfold release. world. cbn [is_click is_move b2n].
      rewrite Hc4, Hm4, !next_draw_trace, Htr3. subst w2. world.
      rewrite !Hcount by auto with world. cbn [is_click is_move b2n]. lia.
Qed.

Lemma cancel_before_step_reports_k_witness :
  let E := mkEnv (fun t => if (t =? 9)%nat then [Panic] else []) (fun _ => 2)
                 (fun _ => false) (fun _ => false) false false in
  let w := idle_world (calibrated (mkPoint 0 0) (mkPoint 20 0) (mkPoint 0 20))
                      (mkConfig 2 2 1 1) in
  let w' := fst (run_macro E w) in
  snd (run_macro E w) = Done 2
  /\ (exists pre, w_trace w' = pre ++ [Info (MsgDone 2); KeyUp])
  /\ count is_click (w_trace w') = (count is_click (w_trace w) + 2)%nat
  /\ count is_move (w_trace w') = (count is_move (w_trace w) + 2)%nat.
Proof.
  intros E w.
  eapply (cancel_before_step_reports_k E w _ _ 2).
  - vm_compute. reflexivity.
  - reflexivity.
  - reflexivity.
  - split; reflexivity.
  - vm_compute. lia.
  - intros i t Hi Ht. unfold top_of_step in Ht. simpl in Ht.
    unfold panicked, E. simpl. destruct (Nat.eqb_spec t 9); [lia | reflexivity].
  - intros _. exists 9%nat. split; [unfold top_of_step; simpl; lia | reflexivity].
Defined.

(** ** The unit rest (claim C2) *)

Lemma click_loop_complete (E : Env) (L : Locals) (sequence : list (Z * Z)) :
  (forall i, move_fails E i = false) -> (forall i, click_fails E i = false) ->
  forall rest idx clicks nb w,
    running (w_state w) = true ->
    p00 (w_state w) <> None ->
    alive E (w_tick w) (5 * length rest) = true ->
    exists w',
      click_loop E L sequence idx rest clicks nb w
      = (w', Ok (clicks + Z.of_nat (length rest)))
      /\ count is_unit_rest (w_trace w')
         = (count is_unit_rest (w_trace w) + units_due L sequence idx rest)%nat.
Proof.
  intros Hmv Hck. induction rest as [|[r c] rest IH]; intros idx clicks nb w Hr Hp Hal.
  - exists w. cbn [click_loop length units_due]. rewrite Z.add_0_r. auto.
  - cbn [length] in Hal.
    replace (5 * S (length rest))%nat with (5 + 5 * length rest)%nat in Hal by lia.
    rewrite alive_app in Hal. apply andb_prop in Hal as [Hal5 Hal].
    assert (Hnp : panicked E (w_tick w) = false).
    { apply (proj1 (alive_true E (w_tick w) 5) Hal5). lia. }
    destruct (loop_body_alive E L sequence idx r c clicks nb w)
      as (w' & nb' & Hbody & Ht' & Hp' & Hr' & _ & _ & Hu'); auto.
    rewrite Hal5 in Hr'. rewrite Hr' in Hu'. cbn [andb] in Hu'.
    destruct (IH (S idx) (clicks + 1) nb' w') as (w'' & Hloop & Hu''); auto.
    { now rewrite Ht'. }
    exists w''. cbn [click_loop length units_due]. rewrite Hbody, Hloop, Hu'', Hu'.
    split; [do 2 f_equal; lia | lia].
Qed.









(** ** A second start request (claim C3) *)


(** C3, the start delay.  A first start request on a calibrated idle
    world reaches its start delay and leaves [state["running"]] false:
    the flag is only set after the delay.  A second request made in that
    world, that is during the first one's delay, is therefore not
    rejected: it reaches its own start delay with the same locals, no
    warning is logged, and when its delay is over it sets the flag,
    presses shift and clicks both cells, even if the first run has
    begun in the meantime. *)
Theorem second_start_during_delay_is_admitted :
  exists w1 w2 L,
    run_macro_entry two_cells = (w1, Started L)
    /\ running (w_state w1) = false
    /\ run_macro_entry w1 = (w2, Started L)
    /\ count (fun c => match c with Warn MsgAlreadyRunning => true | _ => false end)
             (w_trace w2) = 0%nat
    /\ snd (run_macro no_jitter w1) = Done 2
    /\ count is_click (w_trace (fst (run_macro no_jitter w1))) = 2%nat
    /\ snd (run_macro_body no_jitter L (begun w2)) = Ok 2
    /\ count is_key_down (w_trace (fst (run_macro_body no_jitter L (begun w2)))) = 2%nat
    /\ count is_click (w_trace (fst (run_macro_body no_jitter L (begun w2)))) = 2%nat.
Proof.
  eexists. eexists. eexists.
  split; [vm_compute; reflexivity|].
  split; [reflexivity|].
  split; [vm_compute; reflexivity|].
  vm_compute. repeat split.
Qed.

(** ** Calibration written during a run (claim C4) *)

(** C4, on the code.  Two runs start from the same calibration and
    configuration (2 columns, 1 row, cells of 10 by 10 from the origin)
    with the same random draws; [p00] is overwritten with (100,100) at
    tick 6, before the second step, in the first run, and at tick 9,
    after the target of the second step was computed, in the second.
    Both runs click cell (0,0) at (5,5); the first clicks cell (0,1) at
    (115,105), the second at (15,5).  With the capture at tick 8, between
    the reads of [state["p00"].x] and [state["p00"].y], the click goes to
    (15,105).  The cell size, computed before the start delay, is the
    same in all these runs. *)
Theorem p00_is_read_at_every_step :
  let t1 := w_trace (fst (run_macro (capture_at 6 (mkPoint 100 100)) two_cells)) in
  let t2 := w_trace (fst (run_macro (capture_at 9 (mkPoint 100 100)) two_cells)) in
  let t3 := w_trace (fst (run_macro (capture_at 8 (mkPoint 100 100)) two_cells)) in
  nth_target_is t1 0 5 5 = true /\ nth_target_is t2 0 5 5 = true
  /\ nth_target_is t1 1 115 105 = true
  /\ nth_target_is t2 1 15 5 = true
  /\ nth_target_is t3 1 15 105 = true
  /\ nth_target_is t1 1 15 5 = false.
Proof. vm_compute. repeat split. Qed.

(** ** What the run has snapshotted *)

Lemma targets_app (t u : list Call) : targets (t ++ u) = targets t ++ targets u.
Proof. unfold targets. apply flat_map_app. Qed.

Lemma handle_targets (s : Signal) (w : World) :
  targets (w_trace (handle s w)) = targets (w_trace w).
Proof.
  destruct s; simpl; rewrite ?targets_app; simpl; rewrite ?app_nil_r; try reflexivity.
  unfold _panic. destruct (running (w_state w)); simpl;
    rewrite ?targets_app; simpl; rewrite ?app_nil_r; reflexivity.
Qed.

Lemma deliver_targets (E : Env) (w : World) :
  targets (w_trace (deliver E w)) = targets (w_trace w).
Proof.
  unfold deliver. simpl. unfold handle_all. generalize (sched E (w_tick w)).
  intros l. revert w. induction l as [|s l IH]; intros w; simpl; [reflexivity|].
  now rewrite IH, handle_targets.
Qed.

Lemma handle_state_view (l l' : list Signal) :
  filter concerns_run l = filter concerns_run l' ->
  forall st st',
    p00 st = p00 st' -> running st = running st' ->
    p00 (fold_left (fun st s => handle_state s st) l st)
    = p00 (fold_left (fun st s => handle_state s st) l' st')
    /\ running (fold_left (fun st s => handle_state s st) l st)
       = running (fold_left (fun st s => handle_state s st) l' st').
Proof.
  revert l'. induction l as [|s l IH]; intros l'.
  - induction l' as [|s' l' IH']; intros Hf st st' Hp Hr; simpl; [auto|].
    simpl in Hf. destruct s'; simpl in Hf; try discriminate; apply IH'; auto.
  - intros Hf st st' Hp Hr. simpl in Hf.
    destruct (concerns_run s) eqn:Hs.
    + revert st' Hp Hr. induction l' as [|s' l' IH']; intros st' Hp Hr;
        [discriminate|].
      simpl in Hf. destruct (concerns_run s') eqn:Hs'.
      * injection Hf as -> Hf. simpl. apply IH; [assumption| |];
          destruct s'; simpl in *; congruence.
      * simpl. apply IH'; [assumption| |]; destruct s'; simpl in *; congruence.
    + simpl. apply IH; [assumption| |]; destruct s; simpl in *; congruence.
Qed.

Section Snapshot.
Variables (E : Env) (s' : nat -> list Signal).
Hypothesis same_signals :
  forall t, filter concerns_run (sched E t) = filter concerns_run (s' t).

Lemma same_view_deliver (w w' : World) :
  same_view w w' -> same_view (deliver E w) (deliver (with_sched E s') w').
Proof.
  intros (Hp & Hr & Ht & Hrp & Htg). unfold same_view.
  rewrite !deliver_state_eq, !deliver_tick, !deliver_rpos, !deliver_targets.
  unfold deliver_state. rewrite <- Ht.
  destruct (handle_state_view _ _ (same_signals (w_tick w)) _ _ Hp Hr) as [H1 H2].
  auto.
Qed.

Lemma same_view_emit (c : Call) (w w' : World) :
  same_view w w' -> same_view (emit c w) (emit c w').
Proof.
  intros (Hp & Hr & Ht & Hrp & Htg). unfold same_view. simpl.
  rewrite !targets_app, Htg. auto.
Qed.

Lemma same_view_next_draw (w w' : World) :
  same_view w w' -> same_view (next_draw w) (next_draw w').
Proof.
  intros (Hp & Hr & Ht & Hrp & Htg). unfold same_view. simpl.
  repeat split; congruence.
Qed.

Lemma same_view_unit_rest (L : Locals) (sequence : list (Z * Z)) (idx : nat)
  (r c : Z) (w w' : World) :
  same_view w w' ->
  same_view (unit_rest L sequence idx r c w) (unit_rest L sequence idx r c w').
Proof.
  intros H. unfold unit_rest.
  repeat match goal with |- context [if ?b then _ else _] => destruct b end;
    auto using same_view_emit.
Qed.

Lemma loop_body_same_view (L : Locals) (sequence : list (Z * Z)) (idx : nat)
  (rc : Z * Z) (clicks nb : Z) (w w' : World) :
  same_view w w' ->
  same_view (fst (loop_body E L sequence idx rc clicks nb w))
            (fst (loop_body (with_sched E s') L sequence idx rc clicks nb w'))
  /\ snd (loop_body E L sequence idx rc clicks nb w)
     = snd (loop_body (with_sched E s') L sequence idx rc clicks nb w').
Proof.
  intros H. destruct rc as [r c]. unfold loop_body.
  apply same_view_deliver in H. 
  rewrite <- (proj1 (proj2 H)).
  destruct (negb _); [auto|].
  apply same_view_deliver in H. rewrite <- (proj1 H).
  destruct (p00 _) as [ox|]; [|auto].
  rewrite !randint_eq. cbn [tape with_sched].
  rewrite <- (proj1 (proj2 (proj2 (proj2 H)))).
  apply same_view_next_draw, same_view_deliver in H. rewrite <- (proj1 H).
  destruct (p00 _) as [oy|]; [|auto].
  rewrite !randint_eq. cbn [tape move_fails click_fails with_sched].
  rewrite <- (proj1 (proj2 (proj2 (proj2 H)))).
  apply same_view_next_draw in H.
  destruct (move_fails E idx); [auto|].
  set (mv := MoveTo _ _ _). apply (same_view_emit mv) in H.
  destruct (click_fails E idx); [auto|].
  apply (same_view_emit Click), 
        (same_view_emit (Sleep ClickSleep (human_delay (cd_min L) (cd_max L)))),
        same_view_deliver in H.
  rewrite <- (proj1 (proj2 H)).
  destruct (_ && _).
  - rewrite ?randint_eq. cbn [tape with_sched w_rpos emit].
    rewrite <- (proj1 (proj2 (proj2 (proj2 H)))).
    apply (same_view_emit (Sleep BurstSleep (Uniform BURST_REST_MIN BURST_REST_MAX))),
          same_view_next_draw, same_view_deliver in H.
    rewrite <- (proj1 (proj2 H)).
    destruct (running _); cbn [fst snd]; auto using same_view_unit_rest.
  - apply same_view_deliver in H.
    rewrite <- (proj1 (proj2 H)).
    destruct (running _); cbn [fst snd]; auto using same_view_unit_rest.
Qed.

Lemma click_loop_same_view (L : Locals) (sequence rest : list (Z * Z)) :
  forall idx clicks nb w w',
    same_view w w' ->
    same_view (fst (click_loop E L sequence idx rest clicks nb w))
              (fst (click_loop (with_sched E s') L sequence idx rest clicks nb w'))
    /\ snd (click_loop E L sequence idx rest clicks nb w)
       = snd (click_loop (with_sched E s') L sequence idx rest clicks nb w').
Proof.
  induction rest as [|rc rest IH]; intros idx clicks nb w w' H; [simpl; auto|].
  cbn [click_loop].
  destruct (loop_body_same_view L sequence idx rc clicks nb w w' H) as [Hw Hs].
  destruct (loop_body E L sequence idx rc clicks nb w) as [w1 s1].
  destruct (loop_body (with_sched E s') L sequence idx rc clicks nb w') as [w1' s1'].
  cbn [fst snd] in Hw, Hs. subst s1'.
  destruct s1 as [c1 n1| |e]; [now apply IH | auto | auto].
Qed.

Lemma shuffle_from_same_view {A : Type} (i : nat) :
  forall (x : list A) w w',
    same_view w w' ->
    fst (shuffle_from E i x w) = fst (shuffle_from (with_sched E s') i x w')
    /\ same_view (snd (shuffle_from E i x w)) (snd (shuffle_from (with_sched E s') i x w')).
Proof.
  induction i as [|i IH]; intros x w w' H; [simpl; auto|].
  cbn [shuffle_from randbelow tape with_sched].
  rewrite <- (proj1 (proj2 (proj2 (proj2 H)))).
  apply IH. now apply same_view_next_draw.
Qed.

Lemma build_sequence_same_view (C R ord : Z) (w w' : World) :
  same_view w w' ->
  fst (build_sequence E C R ord w) = fst (build_sequence (with_sched E s') C R ord w')
  /\ same_view (snd (build_sequence E C R ord w)) (snd (build_sequence (with_sched E s') C R ord w')).
Proof.
  intros H. unfold build_sequence.
  destruct (ord =? 1); [simpl; auto|]. destruct (ord =? 2); [simpl; auto|].
  now apply shuffle_from_same_view.
Qed.

(** From the start delay on, a run with given locals makes the same
    moves to the same targets and ends the same way whatever captures
    of [pTR] and [pBL] and whatever reloads of the configuration are
    delivered: the cell size, the grid, the order and the timing it
    uses are those bound before the delay. *)
Lemma run_is_blind_to_pTR_pBL_and_config (L : Locals) (w w' : World) :
  same_view w w' ->
  targets (w_trace (fst (run_macro_body E L w)))
  = targets (w_trace (fst (run_macro_body (with_sched E s') L w')))
  /\ snd (run_macro_body E L w) = snd (run_macro_body (with_sched E s') L w').
Proof.
  intros H. unfold run_macro_body, finally_block, try_block.
  cbn [key_down_fails key_up_fails with_sched].
  apply (same_view_emit (Sleep StartSleep (Fixed START_DELAY))), same_view_deliver in H.
  set (w1 := deliver E _) in *. set (w1' := deliver (with_sched E s') _) in *.
  destruct (key_down_fails E).
  { cbn [fst snd set_state w_trace]. split; [apply H | reflexivity]. }
  assert (H2 : same_view (emit KeyDown (set_state (set_running true (w_state w1)) w1))
                         (emit KeyDown (set_state (set_running true (w_state w1')) w1'))).
  { apply same_view_emit. destruct H as (Hp & Hr & Ht & Hrp & Htg).
    unfold same_view. simpl. auto. }
  clearbody w1 w1'. clear H.
  destruct (build_sequence_same_view (cols L) (rows_ L) (order L) _ _ H2) as [Hseq H3].
  destruct (build_sequence E _ _ _ _) as [sequence w3].
  destruct (build_sequence (with_sched E s') _ _ _ _) as [sequence' w3'].
  cbn [fst snd] in Hseq, H3. subst sequence'.
  rewrite !randint_eq. cbn [tape with_sched].
  rewrite <- (proj1 (proj2 (proj2 (proj2 H3)))).
  apply same_view_next_draw in H3.
  destruct (click_loop_same_view L sequence sequence 0%nat 0
              (BURST_MIN + tape E (w_rpos w3) mod (BURST_MAX - BURST_MIN + 1))
              _ _ H3) as [H4 Hres].
  destruct (click_loop E _ _ _ _ _ _ _) as [w4 r4].
  destruct (click_loop (with_sched E s') _ _ _ _ _ _ _) as [w4' r4'].
  cbn [fst snd] in H4, Hres. subst r4'.
  destruct H4 as (_ & _ & _ & _ & Htg).
  destruct r4 as [n|e]; destruct (key_up_fails E); cbn [fst snd];
    unfold release; simpl; rewrite ?targets_app, Htg; auto.
Qed.
End Snapshot.

(** * Further properties *)

(** ** Loading the configuration *)

Lemma to_int_idempotent (parsed : option Z) (default min_v max_v : Z) :
  to_int parsed (to_int parsed default min_v max_v) min_v max_v
  = to_int parsed default min_v max_v.
Proof. unfold to_int. destruct parsed; lia. Qed.

(** X1.  Loading the same file a second time changes nothing in [CFG]. *)
Lemma load_config_idempotent (file : Loaded) (w : World) :
  w_cfg (load_config file (load_config file w)) = w_cfg (load_config file w).
Proof.
  unfold load_config. cbn [w_cfg emit set_cfg columns rows speed scan_order].
  now rewrite !to_int_idempotent.
Qed.

(** X2.  Whatever [config.txt] holds, and whatever [CFG] held before, a
    (re)load leaves [CFG] with at least one column and one row and at
    most 9999 of each, a speed of 1 or 2 and a scan order of 1, 2 or 3;
    it touches neither the calibration nor the running flag. *)
Lemma reload_leaves_config_in_bounds (file : Loaded) (w : World) :
  cfg_in_bounds (w_cfg (reload_config_hotkey file w))
  /\ w_state (reload_config_hotkey file w) = w_state w.
Proof.
  split; [|reflexivity].
  apply (load_config_bounds file w).
Qed.

(** X3.  A key that is absent from the file, or whose value is not an int,
    leaves its entry of [CFG] as it is when that entry is within its
    range; a key whose value is an int within the range becomes the
    entry.  In particular a file with no usable key changes nothing. *)
Lemma load_config_keeps_or_takes (file : Loaded) (w : World) :
  cfg_in_bounds (w_cfg w) ->
  let keep (k : option Z) (old lo hi : Z) :=
    match k with
    | None => old
    | Some v => if (lo <=? v) && (v <=? hi) then v else if v <? lo then lo else hi
    end in
  w_cfg (load_config file w)
  = mkConfig (keep (l_columns file) (columns (w_cfg w)) 1 9999)
             (keep (l_rows file) (rows (w_cfg w)) 1 9999)
             (keep (l_speed file) (speed (w_cfg w)) 1 2)
             (keep (l_scan_order file) (scan_order (w_cfg w)) 1 3).
Proof.
  intros (HC & HR & HS & HO) keep.
  assert (Hk : forall k old lo hi, lo <= old <= hi ->
                 to_int k old lo hi = keep k old lo hi).
  { intros k old lo hi Hold. unfold to_int, keep. destruct k as [v|]; [|lia].
    destruct (Z.leb_spec lo v), (Z.leb_spec v hi), (Z.ltb_spec v lo);
      cbn [andb]; lia. }
  unfold load_config. cbn [w_cfg emit set_cfg columns rows speed scan_order].
  now rewrite !Hk by assumption.
Qed.

Lemma load_config_keeps_or_takes_witness :
  w_cfg (load_config (mkLoaded (Some 30) None (Some 7) (Some 0))
                     (idle_world state_initial CFG_default))
  = mkConfig 30 24 2 1.
Proof.
  rewrite (load_config_keeps_or_takes (mkLoaded (Some 30) None (Some 7) (Some 0))
             (idle_world state_initial CFG_default)).
  - reflexivity.
  - unfold cfg_in_bounds. simpl. lia.
Defined.

(** ** The timing profile *)

(** X4.  For every configuration the profile is well formed: both ranges are
    positive and ordered, neither exceeds the base profile, and the mode
    of the click delay lies in its range; any speed other than 1 gives
    exactly half of each base value. *)
Lemma timing_profile_well_formed (c : Config) :
  let '(cdmin, cdmax, mvmin, mvmax) := timing_profile c in
  (0 < cdmin /\ cdmin <= cdmax /\ cdmax <= BASE_CLICK_DELAY_MAX
   /\ 0 < mvmin /\ mvmin <= mvmax /\ mvmax <= BASE_MOVE_DURATION_MAX
   /\ match human_delay cdmin cdmax with
      | Triangular lo hi mode => lo <= mode /\ mode <= hi
      | _ => False
      end
   /\ (speed c <> 1%Z ->
       cdmin == BASE_CLICK_DELAY_MIN / 2 /\ cdmax == BASE_CLICK_DELAY_MAX / 2
       /\ mvmin == BASE_MOVE_DURATION_MIN / 2
       /\ mvmax == BASE_MOVE_DURATION_MAX / 2))%Q.
Proof.
  unfold timing_profile. destruct (Z.eqb_spec (speed c) 1) as [H1 | H1].
  - repeat split; try (vm_compute; congruence); try contradiction.
  - repeat split; vm_compute; congruence.
Qed.

Lemma timing_profile_well_formed_witness :
  (fst (fst (fst (timing_profile (mkConfig 24 12 2 1)))) == BASE_CLICK_DELAY_MIN / 2)%Q.
Proof.
  pose proof (timing_profile_well_formed (mkConfig 24 12 2 1)) as H.
  cbv beta iota delta [timing_profile speed Z.eqb Pos.eqb] in H.
  destruct H as (_ & _ & _ & _ & _ & _ & _ & H).
  assert (Hne : 2 <> 1) by discriminate. exact (proj1 (H Hne)).
Defined.

(** ** The hotkey callbacks *)

Lemma handle_invariants (s : Signal) (w : World) :
  (calibration_complete (w_state w) -> calibration_complete (w_state (handle s w)))
  /\ (running (w_state (handle s w)) = true -> running (w_state w) = true)
  /\ (cfg_in_bounds (w_cfg w) -> cfg_in_bounds (w_cfg (handle s w))).
Proof.
  unfold calibration_complete.
  destruct s; cbn [handle];
    try (cbn; split; [|split]; intros; try tauto; repeat split; try tauto; discriminate).
  - unfold _panic. destruct (running (w_state w)) eqn:Hr;
      cbn; (split; [|split]); intros; try tauto; try congruence.
  - split; [tauto|]. split; [tauto|].
    intros _. apply (load_config_bounds file w).
Qed.

(** X5.  Whatever hotkeys other than the start one are pressed, in whatever
    order and however often: a complete calibration stays complete,
    [state["running"]] is never set, [CFG] stays within its ranges, and
    the callbacks press or release no key, move the pointer nowhere,
    click nothing and take no sleep.  (The captures do read the pointer
    position and a load reads, and may create, [config.txt].) *)
Lemma callbacks_invariants (l : list Signal) (w : World) :
  (calibration_complete (w_state w) -> calibration_complete (w_state (handle_all l w)))
  /\ (running (w_state (handle_all l w)) = true -> running (w_state w) = true)
  /\ (cfg_in_bounds (w_cfg w) -> cfg_in_bounds (w_cfg (handle_all l w)))
  /\ (forall p, In p [is_key_down; is_key_up; is_move; is_click; is_sleep] ->
        count p (w_trace (handle_all l w)) = count p (w_trace w)).
Proof.
  revert w. induction l as [|s l IH]; intros w; [cbn; tauto|].
  cbn [handle_all fold_left].
  destruct (IH (handle s w)) as (H1 & H2 & H3 & H4).
  destruct (handle_invariants s w) as (G1 & G2 & G3).
  split; [auto|]. split; [auto|]. split; [auto|].
  intros p Hp.
  assert (Hl : logless p).
  { cbn [In] in Hp. intros m.
    destruct Hp as [<- | [<- | [<- | [<- | [<- | []]]]]]; split; reflexivity. }
  rewrite <- (handle_count p s w Hl). now apply H4.
Qed.

Lemma callbacks_invariants_witness :
  let l := [CaptureP00 (mkPoint 3 4); Panic; Reload (mkLoaded (Some 0) None None (Some 9));
            CapturePTR (mkPoint 1 1)] in
  calibration_complete (w_state (handle_all l two_cells))
  /\ cfg_in_bounds (w_cfg (handle_all l two_cells))
  /\ count is_move (w_trace (handle_all l two_cells)) = count is_move (w_trace two_cells).
Proof.
  intros l.
  destruct (callbacks_invariants l two_cells) as (H1 & _ & H3 & H4).
  split; [|split].
  - apply H1. unfold calibration_complete. cbn. repeat split; discriminate.
  - apply H3. unfold cfg_in_bounds. cbn. lia.
  - apply H4. cbn [In]. auto.
Defined.

(** ** Start requests that do not start *)

Lemma last_calls_snoc (t : list Call) (c : Call) : last_calls 1 (t ++ [c]) = [c].
Proof.
  unfold last_calls. rewrite length_app. cbn [length].
  replace (length t + 1 - 1)%nat with (length t + 0)%nat by lia.
  now rewrite skipn_app, Nat.add_0_r, skipn_all, Nat.sub_diag.
Qed.

(** X6.  A start request that returns early has only logged: the dict
    [state], [CFG] and the random generator are as before, the last
    thing done is a warning, and no key was pressed, no move or click
    made and no sleep taken. *)
Lemma rejected_start_only_warns (E : Env) (w : World) :
  snd (run_macro E w) = NotStarted ->
  let w' := fst (run_macro E w) in
  w_state w' = w_state w /\ w_cfg w' = w_cfg w
  /\ w_tick w' = w_tick w /\ w_rpos w' = w_rpos w
  /\ (exists m, last_calls 1 (w_trace w') = [Warn m])
  /\ (forall p, logless p -> count p (w_trace w') = count p (w_trace w)).
Proof.
  assert (Hwarn : forall m w0,
            w_state w0 = w_state w -> w_cfg w0 = w_cfg w ->
            w_tick w0 = w_tick w -> w_rpos w0 = w_rpos w ->
            (forall p, logless p -> count p (w_trace w0) = count p (w_trace w)) ->
            let w' := emit (Warn m) w0 in
            w_state w' = w_state w /\ w_cfg w' = w_cfg w
            /\ w_tick w' = w_tick w /\ w_rpos w' = w_rpos w
            /\ (exists m, last_calls 1 (w_trace w') = [Warn m])
            /\ (forall p, logless p -> count p (w_trace w') = count p (w_trace w))).
  { intros m w0 H1 H2 H3 H4 H5 w'. subst w'.
    cbn [emit w_state w_cfg w_tick w_rpos].
    split; [assumption|]. split; [assumption|]. split; [assumption|].
    split; [assumption|]. split.
    - exists m. apply last_calls_snoc.
    - intros p Hp. rewrite count_emit, H5 by assumption.
      destruct (Hp m) as [_ ->]. cbn. lia. }
  unfold run_macro.
  destruct (run_macro_entry w) as [w1 [| L | e]] eqn:Hentry; cbn [fst snd].
  - intros _. unfold run_macro_entry in Hentry.
    destruct (running (w_state w)).
    { injection Hentry as <-. now apply Hwarn. }
    pose proof (compute_cell_size_world w) as Hcs.
    destruct (p00 (w_state w)); [|injection Hentry as <-; now apply Hwarn].
    destruct (pTR (w_state w)); [|injection Hentry as <-; now apply Hwarn].
    destruct (pBL (w_state w)); [|injection Hentry as <-; now apply Hwarn].
    destruct (compute_cell_size w) as [w0 [[[cw|] [ch|]]|e]];
      cbn [fst] in Hcs; destruct Hcs as (H1 & H2 & H3 & H4 & H5);
      try discriminate;
      try (injection Hentry as <-; now apply Hwarn).
    destruct (degenerate cw ch); [injection Hentry as <-; now apply Hwarn|].
    destruct (timing_profile (w_cfg w0)) as [[[? ?] ?] ?]. discriminate.
  - destruct (run_macro_body E L w1) as [w2 [n|e]]; discriminate.
  - discriminate.
Qed.

Lemma rejected_start_only_warns_witness :
  let w := idle_world state_initial CFG_default in
  let w' := fst (run_macro no_jitter w) in
  w_state w' = w_state w /\ w_cfg w' = w_cfg w
  /\ w_tick w' = w_tick w /\ w_rpos w' = w_rpos w
  /\ (exists m, last_calls 1 (w_trace w') = [Warn m])
  /\ (forall p, logless p -> count p (w_trace w') = count p (w_trace w)).
Proof.
  intros w. apply (rejected_start_only_warns no_jitter w). reflexivity.
Defined.

(** X7.  On a grid of at least one column and one row, a start request
    returns early exactly when a run is flagged as running, or one of
    the three points has not been captured, or the captured points give
    a width or a height that is not positive; otherwise it reaches the
    start delay with the cell size of the calibration and the grid,
    order and timing of [CFG]. *)
Lemma start_rejected_iff (w : World) :
  1 <= columns (w_cfg w) -> 1 <= rows (w_cfg w) ->
  (snd (run_macro_entry w) = Rejected
   <-> running (w_state w) = true
       \/ ~ calibration_complete (w_state w)
       \/ extent_not_positive (w_state w))
  /\ (snd (run_macro_entry w) <> Rejected ->
      exists L, snd (run_macro_entry w) = Started L
                /\ cols L = columns (w_cfg w) /\ rows_ L = rows (w_cfg w)
                /\ order L = scan_order (w_cfg w)
                /\ (cd_min L, cd_max L, mv_min L, mv_max L) = timing_profile (w_cfg w)).
Proof.
  intros HC HR. unfold calibration_complete, extent_not_positive, run_macro_entry.
  destruct (running (w_state w)) eqn:Hrun.
  { cbn. split; [tauto | congruence]. }
  destruct (p00 (w_state w)) as [a|] eqn:Ha;
    [|cbn; split; [split; [intros _; right; left; tauto | reflexivity] | congruence]].
  destruct (pTR (w_state w)) as [b|] eqn:Hb;
    [|cbn; split; [split; [intros _; right; left; tauto | reflexivity] | congruence]].
  destruct (pBL (w_state w)) as [c|] eqn:Hc;
    [|cbn; split; [split; [intros _; right; left; tauto | reflexivity] | congruence]].
  destruct (Z_le_gt_dec (px b) (px a)) as [Hx | Hx];
    [|destruct (Z_le_gt_dec (py c) (py a)) as [Hy | Hy]].
  - rewrite (compute_cell_size_invalid w a b c) by auto. cbn.
    split; [|congruence]. split; [|reflexivity].
    intros _. right. right. exists a, b, c. auto.
  - rewrite (compute_cell_size_invalid w a b c) by auto. cbn.
    split; [|congruence]. split; [|reflexivity].
    intros _. right. right. exists a, b, c. auto.
  - pose proof (compute_cell_size_valid w a b c Ha Hb Hc) as Hcs.
    specialize (Hcs ltac:(lia) ltac:(lia) ltac:(lia) ltac:(lia)). cbv zeta in Hcs.
    rewrite Hcs. rewrite pos_not_degenerate by (apply div_pos; lia).
    cbn [w_cfg emit].
    destruct (timing_profile (w_cfg w)) as [[[cdmin cdmax] mvmin] mvmax].
    cbn [snd]. split.
    + split; [discriminate|].
      intros [H | [H | (a' & b' & c' & Ha' & Hb' & Hc' & Hext)]].
      * discriminate.
      * exfalso. apply H. repeat split; discriminate.
      * injection Ha' as <-. injection Hb' as <-. injection Hc' as <-. lia.
    + intros _. eexists. split; [reflexivity|]. cbn. auto.
Qed.

Lemma start_rejected_iff_witness :
  exists L, snd (run_macro_entry two_cells) = Started L
            /\ cols L = 2 /\ rows_ L = 1 /\ order L = 1
            /\ (cd_min L, cd_max L, mv_min L, mv_max L)
               = timing_profile (mkConfig 2 1 1 1).
Proof.
  apply (proj2 (start_rejected_iff two_cells ltac:(cbn; lia) ltac:(cbn; lia))).
  vm_compute. discriminate.
Defined.

(** ** Accounting of a run, on every path *)

Lemma randint_bounds (E : Env) (a b : Z) (w : World) :
  a <= b -> a <= fst (randint E a b w) <= b.
Proof.
  intros Hab. rewrite randint_eq. cbn [fst].
  pose proof (Z.mod_pos_bound (tape E (w_rpos w)) (b - a + 1) ltac:(lia)). lia.
Qed.

Lemma logless_burst_rest : logless is_burst_rest.
Proof. intros m. auto. Qed.

#[local] Hint Resolve logless_burst_rest : world.

(** The end of an iteration: the last delivery point and the unit rest. *)
Lemma loop_tail (E : Env) (L : Locals) (sequence : list (Z * Z)) (idx : nat)
  (r c : Z) (w5 : World) :
  let w6 := deliver E w5 in
  let w7 := if running (w_state w6) then unit_rest L sequence idx r c w6 else w6 in
  (running (w_state w7) = true -> running (w_state w5) = true)
  /\ (forall p, logless p -> count p (w_trace w5) <= count p (w_trace w7))%nat
  /\ count is_click (w_trace w7) = count is_click (w_trace w5)
  /\ count is_move (w_trace w7) = count is_move (w_trace w5)
  /\ count is_burst_rest (w_trace w7) = count is_burst_rest (w_trace w5)
  /\ (unit_due L sequence idx r c = false ->
      count is_unit_rest (w_trace w7) = count is_unit_rest (w_trace w5)).
Proof.
  intros w6 w7. subst w7.
  assert (Hr : running (w_state w6) = true -> running (w_state w5) = true).
  { subst w6. world. intros H. now apply andb_prop in H. }
  destruct (running (w_state w6)) eqn:Hr6; subst w6.
  - rewrite unit_rest_state, Hr6.
    split; [exact Hr|]. split; [intros p Hp; world; lia|].
    repeat split; intros; world; rewrite ?H; cbn [is_click is_move is_burst_rest b2n];
      try destruct (unit_due _ _ _ _ _); lia.
  - rewrite Hr6. split; [discriminate|]. split; [intros p Hp; world; lia|].
    repeat split; intros; world; lia.
Qed.

(** What one iteration adds to the trace and does to the burst
    threshold, however it ends. *)
Lemma loop_body_accounting (E : Env) (L : Locals) (sequence : list (Z * Z))
  (idx : nat) (rc : Z * Z) (clicks nb : Z) (w : World) :
  let w' := fst (loop_body E L sequence idx rc clicks nb w) in
  let added p := (count p (w_trace w') - count p (w_trace w))%nat in
  (forall p, logless p -> count p (w_trace w) <= count p (w_trace w'))%nat
  /\ (order L <> 1 -> order L <> 2 -> added is_unit_rest = 0%nat)
  /\ match snd (loop_body E L sequence idx rc clicks nb w) with
     | Continue clicks' nb' =>
         clicks' = clicks + 1
         /\ added is_click = 1%nat /\ added is_move = 1%nat
         /\ ((added is_burst_rest = 0%nat /\ nb' = nb
              /\ (running (w_state w') = true -> clicks + 1 < nb))
             \/ (added is_burst_rest = 1%nat /\ nb <= clicks + 1
                 /\ clicks + 1 + BURST_MIN <= nb' <= clicks + 1 + BURST_MAX))
     | Break =>
         added is_click = 0%nat /\ added is_move = 0%nat
         /\ added is_burst_rest = 0%nat
     | Raised _ =>
         added is_click = 0%nat /\ (added is_move <= 1)%nat
         /\ added is_burst_rest = 0%nat
     end.
Proof.
  destruct rc as [r c]. unfold loop_body.
  assert (Hdue : order L <> 1 -> order L <> 2 ->
                 unit_due L sequence idx r c = false).
  { intros H1 H2. unfold unit_due.
    destruct (Z.eqb_spec (order L) 1); [contradiction|].
    destruct (Z.eqb_spec (order L) 2); [contradiction | reflexivity]. }
  cbv zeta.
  destruct (negb _).
  { cbn [fst snd]. repeat split; intros; world; lia. }
  destruct (p00 _) as [ox|].
  2:{ cbn [fst snd]. repeat split; intros; world; lia. }
  rewrite randint_eq.
  destruct (p00 _) as [oy|].
  2:{ cbn [fst snd]. repeat split; intros; world; lia. }
  rewrite randint_eq.
  destruct (move_fails E idx).
  { cbn [fst snd]. repeat split; intros; world; lia. }
  destruct (click_fails E idx).
  { cbn [fst snd]. repeat split; intros; world;
      cbn [is_click is_move is_burst_rest is_unit_rest b2n]; lia. }
  set (jx := - RANDOM_JITTER + _). set (jy := - RANDOM_JITTER + _).
  set (w4 := deliver E _).
  assert (H4 : (forall p, logless p -> count p (w_trace w) <= count p (w_trace w4))%nat
               /\ count is_click (w_trace w4) = (count is_click (w_trace w) + 1)%nat
               /\ count is_move (w_trace w4) = (count is_move (w_trace w) + 1)%nat
               /\ count is_burst_rest (w_trace w4) = count is_burst_rest (w_trace w)
               /\ count is_unit_rest (w_trace w4) = count is_unit_rest (w_trace w)).
  { subst w4. repeat split; intros; world;
      cbn [is_click is_move is_burst_rest is_unit_rest b2n]; lia. }
  clearbody w4. destruct H4 as (Hmono & Hc4 & Hm4 & Hb4 & Hu4).
  destruct (nb <=? clicks + 1) eqn:Hnb; cbn [andb];
    [destruct (running (w_state w4)) eqn:Hr4|].
  - pose proof (randint_bounds E BURST_MIN BURST_MAX
                  (emit (Sleep BurstSleep (Uniform BURST_REST_MIN BURST_REST_MAX)) w4)
                  ltac:(unfold BURST_MIN, BURST_MAX; lia)) as Hk.
    rewrite randint_eq in *. cbn [fst] in Hk. apply Z.leb_le in Hnb.
    destruct (loop_tail E L sequence idx r c
                (next_draw (emit (Sleep BurstSleep (Uniform BURST_REST_MIN BURST_REST_MAX)) w4)))
      as (_ & Tmono & Tc & Tm & Tb & Tu).
    cbn [fst snd].
    split; [intros q Hq; specialize (Tmono q Hq); specialize (Hmono q Hq);
            revert Tmono; world; lia|].
    split; [intros H1 H2; rewrite Tu by auto; world; cbn [is_unit_rest b2n]; lia|].
    split; [reflexivity|].
    split; [rewrite Tc; world; cbn [is_click b2n]; lia|].
    split; [rewrite Tm; world; cbn [is_move b2n]; lia|].
    right. split; [rewrite Tb; world; cbn [is_burst_rest b2n]; lia|].
    split; [assumption | lia].
  - destruct (loop_tail E L sequence idx r c w4) as (Tr & Tmono & Tc & Tm & Tb & Tu).
    cbn [fst snd].
    split; [intros q Hq; specialize (Tmono q Hq); specialize (Hmono q Hq); lia|].
    split; [intros H1 H2; rewrite Tu by auto; lia|].
    split; [reflexivity|].
    split; [lia|]. split; [lia|].
    left. split; [lia|]. split; [reflexivity|].
    intros H. apply Tr in H. congruence.
  - destruct (loop_tail E L sequence idx r c w4) as (Tr & Tmono & Tc & Tm & Tb & Tu).
    cbn [fst snd]. apply Z.leb_gt in Hnb.
    split; [intros q Hq; specialize (Tmono q Hq); specialize (Hmono q Hq); lia|].
    split; [intros H1 H2; rewrite Tu by auto; lia|].
    split; [reflexivity|].
    split; [lia|]. split; [lia|].
    left. split; [lia|]. split; [reflexivity|]. intros _. lia.
Qed.

Lemma click_loop_accounting (E : Env) (L : Locals) (sequence : list (Z * Z)) :
  forall rest idx clicks nb w (k b : nat),
    clicks = Z.of_nat k -> BURST_MIN * Z.of_nat (b + 1) <= nb ->
    (24 * b <= k)%nat ->
    let w' := fst (click_loop E L sequence idx rest clicks nb w) in
    exists dk dm db : nat,
      count is_click (w_trace w') = (count is_click (w_trace w) + dk)%nat
      /\ count is_move (w_trace w') = (count is_move (w_trace w) + dm)%nat
      /\ count is_burst_rest (w_trace w') = (count is_burst_rest (w_trace w) + db)%nat
      /\ (24 * (b + db) <= k + dk)%nat
      /\ (order L <> 1 -> order L <> 2 ->
          count is_unit_rest (w_trace w') = count is_unit_rest (w_trace w))
      /\ match snd (click_loop E L sequence idx rest clicks nb w) with
         | Ok n => n = Z.of_nat (k + dk) /\ dm = dk
         | Raise _ => (dk <= dm <= dk + 1)%nat
         end.
Proof.
  induction rest as [|rc rest IH]; intros idx clicks nb w k b Hk Hnb Hb.
  - exists 0%nat, 0%nat, 0%nat. cbn [click_loop fst snd].
    rewrite !Nat.add_0_r. repeat split; auto; lia.
  - cbn [click_loop].
    pose proof (loop_body_accounting E L sequence idx rc clicks nb w) as Hbody.
    cbv zeta in Hbody. destruct Hbody as (Hmono & Hunit & Hstep).
    pose proof (Hmono is_click logless_click) as Mc.
    pose proof (Hmono is_move logless_move) as Mm.
    pose proof (Hmono is_burst_rest logless_burst_rest) as Mb.
    pose proof (Hmono is_unit_rest logless_unit_rest) as Mu.
    destruct (loop_body E L sequence idx rc clicks nb w) as [w1 [clicks' nb'| |e]];
      cbn [fst snd] in *.
    + destruct Hstep as (Hc' & Hdc & Hdm & Hburst).
      assert (Hcase : exists db1 : nat,
                 count is_burst_rest (w_trace w1)
                 = (count is_burst_rest (w_trace w) + db1)%nat
                 /\ BURST_MIN * Z.of_nat (b + db1 + 1) <= nb'
                 /\ (24 * (b + db1) <= k + 1)%nat).
      { unfold BURST_MIN, BURST_MAX in *.
        destruct Hburst as [(Hdb & -> & _) | (Hdb & Hle & Hnb')].
        - exists 0%nat. rewrite Nat.add_0_r. repeat split; lia.
        - exists 1%nat. repeat split; lia. }
      destruct Hcase as (db1 & Hb1 & Hnb1 & Hk1).
      destruct (IH (S idx) clicks' nb' w1 (k + 1)%nat (b + db1)%nat)
        as (dk & dm & db & Gc & Gm & Gb & Gk & Gu & Gres); [lia | lia | lia |].
      exists (1 + dk)%nat, (1 + dm)%nat, (db1 + db)%nat.
      split; [lia|]. split; [lia|]. split; [lia|]. split; [lia|].
      split; [intros H1 H2; rewrite Gu by assumption; specialize (Hunit H1 H2); lia|].
      destruct (snd (click_loop E L sequence (S idx) rest clicks' nb' w1));
        [destruct Gres as [-> ->]; split; [f_equal|]; lia | lia].
    + destruct Hstep as (Hdc & Hdm & Hdb).
      exists 0%nat, 0%nat, 0%nat. rewrite !Nat.add_0_r.
      split; [lia|]. split; [lia|]. split; [lia|]. split; [lia|].
      split; [intros H1 H2; specialize (Hunit H1 H2); lia|]. auto.
    + destruct Hstep as (Hdc & Hdm & Hdb).
      exists 0%nat, (count is_move (w_trace w1) - count is_move (w_trace w))%nat, 0%nat.
      rewrite !Nat.add_0_r.
      split; [lia|]. split; [lia|]. split; [lia|]. split; [lia|].
      split; [intros H1 H2; specialize (Hunit H1 H2); lia|]. lia.
Qed.

(** The same accounting for a whole call of [run_macro] that has
    reached its start delay. *)
Lemma run_macro_accounting (E : Env) (w w1 : World) (L : Locals) :
  run_macro_entry w = (w1, Started L) ->
  let w' := fst (run_macro E w) in
  exists k m b : nat,
    count is_click (w_trace w') = (count is_click (w_trace w) + k)%nat
    /\ count is_move (w_trace w') = (count is_move (w_trace w) + m)%nat
    /\ count is_burst_rest (w_trace w') = (count is_burst_rest (w_trace w) + b)%nat
    /\ (24 * b <= k)%nat
    /\ (scan_order (w_cfg w) <> 1 -> scan_order (w_cfg w) <> 2 ->
        count is_unit_rest (w_trace w') = count is_unit_rest (w_trace w))
    /\ match snd (run_macro E w) with
       | Done n => n = Z.of_nat k /\ m = k
       | Failed _ => (k <= m <= k + 1)%nat
       | NotStarted => False
       end.
Proof.
  intros Hentry.
  destruct (run_macro_entry_started w w1 L Hentry)
    as (_ & _ & _ & _ & _ & Hcount & _ & _ & HO).
  unfold run_macro. rewrite Hentry. unfold run_macro_body, finally_block, try_block.
  destruct (key_down_fails E).
  { exists 0%nat, 0%nat, 0%nat. cbn [fst snd]. world.
    rewrite !Hcount by auto with world.
    cbn [is_click is_move is_burst_rest is_unit_rest b2n].
    repeat split; intros; lia. }
  set (w2 := emit KeyDown _).
  assert (H2 : forall p, logless p -> p KeyDown = false ->
                 (forall s d, p (Sleep s d) = false) ->
                 count p (w_trace w2) = count p (w_trace w)).
  { intros p Hp Hkd Hs. subst w2. world. rewrite Hcount, Hkd, Hs by assumption.
    cbn. lia. }
  pose proof (build_sequence_world E (cols L) (rows_ L) (order L) w2) as Hbw.
  destruct (build_sequence E (cols L) (rows_ L) (order L) w2) as [sequence w3].
  cbn [snd] in Hbw. destruct Hbw as (_ & _ & Htr3).
  pose proof (randint_bounds E BURST_MIN BURST_MAX w3
                ltac:(unfold BURST_MIN, BURST_MAX; lia)) as Hnb.
  rewrite randint_eq in *. cbn [fst] in Hnb.
  set (nb := BURST_MIN + _) in *.
  destruct (click_loop_accounting E L sequence sequence 0%nat 0 nb (next_draw w3)
              0%nat 0%nat)
    as (k & m & b & Gc & Gm & Gb & Gk & Gu & Gres);
    [reflexivity | unfold BURST_MIN in *; lia | lia |].
  rewrite next_draw_trace, Htr3 in Gc, Gm, Gb, Gu.
  rewrite (H2 is_click logless_click eq_refl (fun _ _ => eq_refl)) in Gc.
  rewrite (H2 is_move logless_move eq_refl (fun _ _ => eq_refl)) in Gm.
  assert (Hb2 : count is_burst_rest (w_trace w2) = count is_burst_rest (w_trace w)).
  { subst w2. world. rewrite Hcount by auto with world. cbn. lia. }
  rewrite Hb2 in Gb.
  exists k, m, b.
  destruct (click_loop E L sequence 0 sequence 0 nb (next_draw w3)) as [w4 [n|e]];
    destruct (key_up_fails E);
    cbn [fst snd] in *; unfold release; world;
    cbn [is_click is_move is_burst_rest is_unit_rest b2n];
    rewrite Gc, Gm, Gb;
    (split; [lia|]); (split; [lia|]); (split; [lia|]); (split; [lia|]);
    (split; [intros H1 H2'; rewrite Gu by (rewrite HO; assumption);
             subst w2; world; rewrite Hcount by auto with world;
             cbn [is_unit_rest b2n]; lia|]);
    try (destruct Gres as [-> ->]);
    first [split; [f_equal; lia | reflexivity] | lia].
Qed.

(** X8.  Whatever the callbacks, the random draws and the failures of the
    collaborator: when a run returns normally, cancelled or not, the
    count it reports is the number of clicks it made and also the
    number of moves; when a call of the collaborator raised (a move, a
    click, the key press or the key release), the run made as many
    moves as clicks, or one more. *)
Lemma reported_count_is_clicks_made (E : Env) (w w1 : World) (L : Locals) :
  run_macro_entry w = (w1, Started L) ->
  let w' := fst (run_macro E w) in
  let clicks := (count is_click (w_trace w') - count is_click (w_trace w))%nat in
  let moves := (count is_move (w_trace w') - count is_move (w_trace w))%nat in
  match snd (run_macro E w) with
  | Done n => n = Z.of_nat clicks /\ moves = clicks
  | Failed _ => moves = clicks \/ moves = S clicks
  | NotStarted => False
  end.
Proof.
  intros Hentry.
  destruct (run_macro_accounting E w w1 L Hentry)
    as (k & m & b & Hc & Hm & _ & _ & _ & Hres).
  cbv zeta. rewrite Hc, Hm.
  replace (count is_click (w_trace w) + k - count is_click (w_trace w))%nat with k by lia.
  replace (count is_move (w_trace w) + m - count is_move (w_trace w))%nat with m by lia.
  destruct (snd (run_macro E w)); [assumption | assumption | lia].
Qed.

Lemma reported_count_is_clicks_made_witness :
  let E := mkEnv (fun t => if (t =? 7)%nat then [Panic] else []) (fun _ => 0)
                 (fun _ => false) (fun _ => false) false false in
  let w' := fst (run_macro E two_cells) in
  let clicks := (count is_click (w_trace w') - count is_click (w_trace two_cells))%nat in
  let moves := (count is_move (w_trace w') - count is_move (w_trace two_cells))%nat in
  match snd (run_macro E two_cells) with
  | Done n => n = Z.of_nat clicks /\ moves = clicks
  | Failed _ => moves = clicks \/ moves = S clicks
  | NotStarted => False
  end.
Proof.
  intros E. eapply (reported_count_is_clicks_made E two_cells).
  vm_compute. reflexivity.
Defined.

(** X9.  On every path, a run takes at most one burst rest per [BURST_MIN]
    clicks: 24 times the number of burst rests is at most the number of
    clicks made. *)
Lemma burst_rests_are_24_clicks_apart (E : Env) (w w1 : World) (L : Locals) :
  run_macro_entry w = (w1, Started L) ->
  let w' := fst (run_macro E w) in
  (24 * (count is_burst_rest (w_trace w') - count is_burst_rest (w_trace w))
   <= count is_click (w_trace w') - count is_click (w_trace w))%nat.
Proof.
  intros Hentry.
  destruct (run_macro_accounting E w w1 L Hentry)
    as (k & m & b & Hc & _ & Hb & Hk & _ & _).
  cbv zeta. rewrite Hc, Hb. lia.
Qed.

Lemma burst_rests_are_24_clicks_apart_witness :
  let w' := fst (run_macro (quiet_env (fun _ => 0)) example_world) in
  (24 * (count is_burst_rest (w_trace w') - count is_burst_rest (w_trace example_world))
   <= count is_click (w_trace w') - count is_click (w_trace example_world))%nat.
Proof.
  eapply (burst_rests_are_24_clicks_apart (quiet_env (fun _ => 0)) example_world).
  vm_compute. reflexivity.
Defined.

(** X10.  When [scan_order] is neither 1 nor 2 (the random order), a run
    takes no unit rest, on any path. *)
Lemma no_unit_rest_in_random_order (E : Env) (w w1 : World) (L : Locals) :
  run_macro_entry w = (w1, Started L) ->
  scan_order (w_cfg w) <> 1 -> scan_order (w_cfg w) <> 2 ->
  count is_unit_rest (w_trace (fst (run_macro E w))) = count is_unit_rest (w_trace w).
Proof.
  intros Hentry H1 H2.
  destruct (run_macro_accounting E w w1 L Hentry)
    as (k & m & b & _ & _ & _ & _ & Hu & _).
  now apply Hu.
Qed.

Lemma no_unit_rest_in_random_order_witness :
  let w := idle_world (calibrated (mkPoint 0 0) (mkPoint 30 0) (mkPoint 0 20))
                      (mkConfig 3 2 1 3) in
  count is_unit_rest (w_trace (fst (run_macro (quiet_env (fun n => Z.of_nat n)) w)))
  = count is_unit_rest (w_trace w).
Proof.
  intros w. eapply (no_unit_rest_in_random_order (quiet_env (fun n => Z.of_nat n)) w).
  - vm_compute. reflexivity.
  - cbn. discriminate.
  - cbn. discriminate.
Defined.

(** ** Runs that go to completion *)

(** A run that reached its start delay at tick [t0], whose collaborator
    does not fail (moves, clicks, key press and key release return) and
    to which no panic is delivered after tick [t0],
    reports [columns * rows] clicks. *)
Lemma run_to_completion (E : Env) (w w1 : World) (L : Locals) :
  run_macro_entry w = (w1, Started L) ->
  (forall i, move_fails E i = false) -> (forall i, click_fails E i = false) ->
  keys_work E ->
  (forall t, (w_tick w < t)%nat -> panicked E t = false) ->
  snd (run_macro E w)
  = Done (Z.of_nat (Z.to_nat (columns (w_cfg w)) * Z.to_nat (rows (w_cfg w)))).
Proof.
  intros Hentry Hmv Hck Hkeys Hquiet.
  destruct (run_macro_entry_started w w1 L Hentry)
    as (_ & Hp00 & Hs1 & _ & Ht1 & _ & HC & HR & _).
  unfold run_macro. rewrite Hentry, (run_macro_body_keys_work E L w1 Hkeys).
  cbv zeta. unfold try_block.
  set (w2 := emit KeyDown _).
  pose proof (build_sequence_world E (cols L) (rows_ L) (order L) w2) as Hbw.
  pose proof (build_sequence_length E (cols L) (rows_ L) (order L) w2) as Hlen.
  destruct (build_sequence E (cols L) (rows_ L) (order L) w2) as [sequence w3].
  cbn [fst snd] in Hbw, Hlen. destruct Hbw as (Hs3 & Ht3 & _).
  rewrite HC, HR in Hlen. rewrite randint_eq.
  destruct (click_loop_complete E L sequence Hmv Hck sequence 0%nat 0
              (BURST_MIN + tape E (w_rpos w3) mod (BURST_MAX - BURST_MIN + 1))
              (next_draw w3)) as (w4 & Hloop & _).
  - rewrite next_draw_state, Hs3. subst w2. now world.
  - rewrite next_draw_state, Hs3. subst w2. world.
    apply deliver_state_p00. now rewrite Hs1.
  - apply alive_true. intros t Ht. apply Hquiet.
    rewrite next_draw_tick, Ht3 in Ht. subst w2. revert Ht. world. rewrite Ht1. lia.
  - rewrite Hloop. cbn [fst snd]. now rewrite Z.add_0_l, Hlen.
Qed.

(** X11.  A panic pressed during the start delay does not cancel the run:
    [_panic] only clears a flag that is set, and the flag is set after
    the delay.  With no later panic and a collaborator that does not
    fail, the run clicks every cell and reports [columns * rows]. *)
Lemma panic_during_start_delay_is_ignored (E : Env) (w w1 : World) (L : Locals) :
  run_macro_entry w = (w1, Started L) ->
  (forall i, move_fails E i = false) -> (forall i, click_fails E i = false) ->
  keys_work E ->
  panicked E (w_tick w) = true ->
  (forall t, (w_tick w < t)%nat -> panicked E t = false) ->
  let n := (Z.to_nat (columns (w_cfg w)) * Z.to_nat (rows (w_cfg w)))%nat in
  snd (run_macro E w) = Done (Z.of_nat n)
  /\ count is_click (w_trace (fst (run_macro E w)))
     = (count is_click (w_trace w) + n)%nat.
Proof.
  intros Hentry Hmv Hck Hkeys _ Hquiet n.
  pose proof (run_to_completion E w w1 L Hentry Hmv Hck Hkeys Hquiet) as Hdone.
  split; [exact Hdone|].
  destruct (run_macro_accounting E w w1 L Hentry)
    as (k & m & b & Hc & _ & _ & _ & _ & Hres).
  rewrite Hdone in Hres. destruct Hres as [Hn _]. rewrite Hc. subst n. lia.
Qed.

Lemma panic_during_start_delay_is_ignored_witness :
  let E := mkEnv (fun t => if (t =? 0)%nat then [Panic] else []) (fun _ => 0)
                 (fun _ => false) (fun _ => false) false false in
  snd (run_macro E two_cells) = Done (Z.of_nat (Z.to_nat 2 * Z.to_nat 1))
  /\ count is_click (w_trace (fst (run_macro E two_cells)))
     = (count is_click (w_trace two_cells) + Z.to_nat 2 * Z.to_nat 1)%nat.
Proof.
  intros E. eapply (panic_during_start_delay_is_ignored E two_cells).
  - vm_compute. reflexivity.
  - reflexivity.
  - reflexivity.
  - split; reflexivity.
  - reflexivity.
  - intros t Ht. unfold panicked, E. cbn [sched].
    destruct (Nat.eqb_spec t 0); [cbn in Ht; lia | reflexivity].
Defined.

(** In a loop that runs to its end, a burst rest is taken as soon as the
    click count reaches the threshold, and the next threshold is at
    most [BURST_MAX] clicks further. *)
Lemma click_loop_complete_bursts (E : Env) (L : Locals) (sequence : list (Z * Z)) :
  (forall i, move_fails E i = false) -> (forall i, click_fails E i = false) ->
  forall rest idx clicks nb w (b : nat),
    running (w_state w) = true ->
    p00 (w_state w) <> None ->
    alive E (w_tick w) (5 * length rest) = true ->
    clicks < nb -> nb <= BURST_MAX * Z.of_nat (b + 1) ->
    exists db : nat,
      count is_burst_rest
        (w_trace (fst (click_loop E L sequence idx rest clicks nb w)))
      = (count is_burst_rest (w_trace w) + db)%nat
      /\ clicks + Z.of_nat (length rest) < BURST_MAX * Z.of_nat (b + db + 1).
Proof.
  intros Hmv Hck.
  induction rest as [|[r c] rest IH]; intros idx clicks nb w b Hr Hp Hal Hlt Hnb.
  - exists 0%nat. cbn [click_loop fst length]. split; [lia|].
    rewrite Nat.add_0_r. cbn [Z.of_nat]. lia.
  - cbn [length] in Hal.
    replace (5 * S (length rest))%nat with (5 + 5 * length rest)%nat in Hal by lia.
    rewrite alive_app in Hal. apply andb_prop in Hal as [Hal5 Hal].
    assert (Hnp : panicked E (w_tick w) = false).
    { apply (proj1 (alive_true E (w_tick w) 5) Hal5). lia. }
    destruct (loop_body_alive E L sequence idx r c clicks nb w)
      as (w' & nb' & Hbody & Ht' & Hp' & Hr' & _); auto.
    rewrite Hal5 in Hr'.
    pose proof (loop_body_accounting E L sequence idx (r, c) clicks nb w) as Hacc.
    cbv zeta in Hacc. rewrite Hbody in Hacc. cbn [fst snd] in Hacc.
    destruct Hacc as (Hmono & _ & _ & _ & _ & Hburst).
    specialize (Hmono is_burst_rest logless_burst_rest).
    cbn [click_loop]. rewrite Hbody.
    unfold BURST_MIN, BURST_MAX in *.
    destruct Hburst as [(Hdb & -> & Hnext) | (Hdb & Hle & Hnb')].
    + destruct (IH (S idx) (clicks + 1) nb w' b) as (db & Gb & Glt); auto.
      { now rewrite Ht'. }
      exists db. split; [lia|]. cbn [length]. lia.
    + destruct (IH (S idx) (clicks + 1) nb' w' (b + 1)%nat) as (db & Gb & Glt); auto.
      { now rewrite Ht'. } { lia. } { lia. }
      exists (1 + db)%nat. split; [lia|]. cbn [length].
      replace (b + (1 + db) + 1)%nat with (b + 1 + db + 1)%nat by lia. lia.
Qed.

(** X12.  In a run that goes to completion over [n = columns * rows] cells,
    the number [b] of burst rests satisfies [24 * b <= n < 48 * (b + 1)]:
    rests are at least [BURST_MIN] and at most [BURST_MAX] clicks
    apart, the first one included. *)
Lemma burst_rests_of_a_complete_run (E : Env) (w w1 : World) (L : Locals) :
  run_macro_entry w = (w1, Started L) ->
  (forall i, move_fails E i = false) -> (forall i, click_fails E i = false) ->
  keys_work E ->
  (forall t, (w_tick w < t)%nat -> panicked E t = false) ->
  let n := (Z.to_nat (columns (w_cfg w)) * Z.to_nat (rows (w_cfg w)))%nat in
  let b := (count is_burst_rest (w_trace (fst (run_macro E w)))
            - count is_burst_rest (w_trace w))%nat in
  (24 * b <= n < 48 * (b + 1))%nat.
Proof.
  intros Hentry Hmv Hck Hkeys Hquiet n b.
  pose proof (run_to_completion E w w1 L Hentry Hmv Hck Hkeys Hquiet) as Hdone.
  destruct (run_macro_accounting E w w1 L Hentry)
    as (k & m & b' & _ & _ & Hb & Hk & _ & Hres).
  rewrite Hdone in Hres. destruct Hres as [Hn _].
  assert (Hkn : k = n) by (subst n; lia).
  assert (Hbb : b = b') by (subst b; lia).
  split; [lia|]. clear Hk Hn Hdone.
  destruct (run_macro_entry_started w w1 L Hentry)
    as (_ & Hp00 & Hs1 & _ & Ht1 & Hcount & HC & HR & _).
  subst b. revert Hb. unfold run_macro.
  rewrite Hentry, (run_macro_body_keys_work E L w1 Hkeys).
  cbv zeta. unfold try_block.
  set (w2 := emit KeyDown _).
  assert (Hb2 : count is_burst_rest (w_trace w2) = count is_burst_rest (w_trace w)).
  { subst w2. world. rewrite Hcount by auto with world. cbn. lia. }
  pose proof (build_sequence_world E (cols L) (rows_ L) (order L) w2) as Hbw.
  pose proof (build_sequence_length E (cols L) (rows_ L) (order L) w2) as Hlen.
  destruct (build_sequence E (cols L) (rows_ L) (order L) w2) as [sequence w3].
  cbn [fst snd] in Hbw, Hlen. destruct Hbw as (Hs3 & Ht3 & Htr3).
  rewrite HC, HR in Hlen.
  pose proof (randint_bounds E BURST_MIN BURST_MAX w3
                ltac:(unfold BURST_MIN, BURST_MAX; lia)) as Hnb.
  rewrite randint_eq in *. cbn [fst] in Hnb.
  set (nb := BURST_MIN + _) in *.
  destruct (click_loop_complete_bursts E L sequence Hmv Hck sequence 0%nat 0 nb
              (next_draw w3) 0%nat) as (db & Gb & Glt).
  - rewrite next_draw_state, Hs3. subst w2. now world.
  - rewrite next_draw_state, Hs3. subst w2. world.
    apply deliver_state_p00. now rewrite Hs1.
  - apply alive_true. intros t Ht. apply Hquiet.
    rewrite next_draw_tick, Ht3 in Ht. subst w2. revert Ht. world. rewrite Ht1. lia.
  - clearbody nb. unfold BURST_MIN in Hnb. lia.
  - clearbody nb. change (Z.of_nat (0 + 1)) with 1. lia.
  - rewrite next_draw_trace, Htr3, Hb2 in Gb.
    destruct (click_loop E L sequence 0 sequence 0 nb (next_draw w3)) as [w4 [n'|e]];
      cbn [fst snd] in *; unfold release; world;
      cbn [is_burst_rest b2n]; rewrite Gb; intros Hb;
      unfold BURST_MAX in Glt; fold n in Hlen; lia.
Qed.

Lemma burst_rests_of_a_complete_run_witness :
  let E := quiet_env (fun n => Z.of_nat n) in
  let n := (Z.to_nat 24 * Z.to_nat 12)%nat in
  let b := (count is_burst_rest (w_trace (fst (run_macro E example_world)))
            - count is_burst_rest (w_trace example_world))%nat in
  (24 * b <= n < 48 * (b + 1))%nat.
Proof.
  intros E. eapply (burst_rests_of_a_complete_run E example_world).
  - vm_compute. reflexivity.
  - reflexivity.
  - reflexivity.
  - split; reflexivity.
  - reflexivity.
Defined.

(** ** The unit rest in row-major order *)





(** ** Runs during which no hotkey is pressed *)

Lemma deliver_silent (E : Env) (w : World) :
  silent E -> deliver E w = next_tick w.
Proof. intros H. unfold deliver. now rewrite H. Qed.

Lemma unit_rest_cfg (L : Locals) (sequence : list (Z * Z)) (idx : nat) (r c : Z)
  (w : World) :
  w_cfg (unit_rest L sequence idx r c w) = w_cfg w.
Proof.
  unfold unit_rest.
  repeat match goal with |- context [if ?b then _ else _] => destruct b end;
    reflexivity.
Qed.

Lemma unit_rest_targets (L : Locals) (sequence : list (Z * Z)) (idx : nat) (r c : Z)
  (w : World) :
  targets (w_trace (unit_rest L sequence idx r c w)) = targets (w_trace w).
Proof.
  unfold unit_rest.
  repeat match goal with |- context [if ?b then _ else _] => destruct b end;
    cbn [emit w_trace]; rewrite ?targets_app; cbn [targets flat_map];
    rewrite ?app_nil_r; reflexivity.
Qed.

(** However an iteration ends, if no hotkey is pressed it leaves the
    dicts [state] and [CFG] as they were. *)
Lemma loop_body_silent (E : Env) (L : Locals) (sequence : list (Z * Z)) (idx : nat)
  (rc : Z * Z) (clicks nb : Z) (w : World) :
  silent E ->
  w_state (fst (loop_body E L sequence idx rc clicks nb w)) = w_state w
  /\ w_cfg (fst (loop_body E L sequence idx rc clicks nb w)) = w_cfg w.
Proof.
  intros Hs. destruct rc as [r c]. unfold loop_body.
  repeat (first [rewrite randint_eq | rewrite (deliver_silent E _ Hs)]).
  cbn [next_tick next_draw emit w_state w_cfg].
  destruct (negb _); [cbn [fst w_state w_cfg]; auto|].
  destruct (p00 (w_state w)); [|cbn [fst w_state w_cfg]; auto].
  destruct (move_fails E idx); [cbn [fst w_state w_cfg]; auto|].
  destruct (click_fails E idx); [cbn [fst w_state w_cfg]; auto|].
  destruct (_ && _);
    repeat (first [rewrite randint_eq | rewrite (deliver_silent E _ Hs)]);
    cbn [next_tick next_draw emit w_state w_cfg];
    destruct (running (w_state w)); cbn [fst];
    rewrite ?unit_rest_state, ?unit_rest_cfg; cbn [w_state w_cfg]; auto.
Qed.

Lemma click_loop_silent (E : Env) (L : Locals) (sequence rest : list (Z * Z)) :
  silent E ->
  forall idx clicks nb w,
    w_state (fst (click_loop E L sequence idx rest clicks nb w)) = w_state w
    /\ w_cfg (fst (click_loop E L sequence idx rest clicks nb w)) = w_cfg w.
Proof.
  intros Hs. induction rest as [|rc rest IH]; intros idx clicks nb w; [cbn; auto|].
  cbn [click_loop].
  destruct (loop_body_silent E L sequence idx rc clicks nb w Hs) as [H1 H2].
  destruct (loop_body E L sequence idx rc clicks nb w) as [w1 [c' n'| |e]];
    cbn [fst] in *; auto.
  destruct (IH (S idx) c' n' w1) as [G1 G2]. split; congruence.
Qed.

Lemma build_sequence_cfg (E : Env) (C R ord : Z) (w : World) :
  w_cfg (snd (build_sequence E C R ord w)) = w_cfg w.
Proof.
  unfold build_sequence.
  destruct (ord =? 1); [reflexivity|]. destruct (ord =? 2); [reflexivity|].
  unfold shuffle. generalize (length (row_major C R) - 1)%nat.
  generalize (row_major C R). intros x i. revert x w.
  induction i as [|i IH]; intros x w; [reflexivity|].
  cbn [shuffle_from randbelow]. now rewrite IH.
Qed.

(** What [run_macro] decides before the start delay only depends on
    the dicts [state] and [CFG]. *)
Lemma run_macro_entry_ext (w w' : World) :
  w_state w = w_state w' -> w_cfg w = w_cfg w' ->
  snd (run_macro_entry w) = snd (run_macro_entry w').
Proof.
  intros Hs Hc. unfold run_macro_entry, compute_cell_size. rewrite <- Hs, <- Hc.
  destruct (running (w_state w)); [reflexivity|].
  destruct (p00 (w_state w)); [|reflexivity].
  destruct (pTR (w_state w)); [|reflexivity].
  destruct (pBL (w_state w)); [|reflexivity].
  destruct (_ || _); [reflexivity|].
  destruct (true_div _ (columns _)); [|reflexivity].
  destruct (true_div _ (rows _)); [|reflexivity].
  destruct (degenerate _ _); [reflexivity|].
  cbn [w_cfg emit]. rewrite <- Hc.
  destruct (timing_profile (w_cfg w)) as [[[? ?] ?] ?]. reflexivity.
Qed.

Lemma try_block_silent (E : Env) (L : Locals) (w : World) :
  silent E ->
  w_state (fst (try_block E L w)) = w_state w
  /\ w_cfg (fst (try_block E L w)) = w_cfg w.
Proof.
  intros Hs. unfold try_block.
  pose proof (build_sequence_world E (cols L) (rows_ L) (order L) w) as Hbw.
  pose proof (build_sequence_cfg E (cols L) (rows_ L) (order L) w) as Hbc.
  destruct (build_sequence E (cols L) (rows_ L) (order L) w) as [sequence w3].
  cbn [snd] in Hbw, Hbc. destruct Hbw as (Hs3 & _ & _).
  rewrite randint_eq.
  destruct (click_loop_silent E L sequence sequence Hs 0%nat 0
              (BURST_MIN + tape E (w_rpos w3) mod (BURST_MAX - BURST_MIN + 1))
              (next_draw w3)) as [G1 G2].
  cbn [next_draw w_state w_cfg] in G1, G2. rewrite Hs3 in G1. rewrite Hbc in G2.
  destruct (click_loop E L sequence 0 sequence 0 _ _) as [w4 [n|e]];
    cbn [fst emit w_state w_cfg] in *; auto.
Qed.

(** X14.  If no hotkey is pressed while it runs and [pag.keyDown] and
    [pag.keyUp] return, a call of [run_macro] that reached its start
    delay, however it ends (normally or by an exception of [pag.moveTo]
    or [pag.click]), leaves the calibration and [CFG] untouched and the
    flag cleared, so that the next start request is admitted with the
    same cell size, grid, order and timing. *)
Lemma finished_run_can_be_started_again (E : Env) (w w1 : World) (L : Locals) :
  silent E -> keys_work E ->
  run_macro_entry w = (w1, Started L) ->
  let w' := fst (run_macro E w) in
  w_state w' = w_state w /\ w_cfg w' = w_cfg w
  /\ snd (run_macro_entry w') = Started L.
Proof.
  intros Hs Hkeys Hentry.
  destruct (run_macro_entry_started w w1 L Hentry)
    as (Hrun & _ & Hs1 & Hc1 & _).
  assert (Hst : w_state (fst (run_macro E w)) = w_state w
                /\ w_cfg (fst (run_macro E w)) = w_cfg w).
  { unfold run_macro. rewrite Hentry, (run_macro_body_keys_work E L w1 Hkeys).
    cbv zeta. rewrite (deliver_silent E _ Hs).
    set (w2 := emit KeyDown _).
    destruct (try_block_silent E L w2 Hs) as [G1 G2].
    destruct (try_block E L w2) as [w4 [n|e]];
      subst w2; cbn [emit set_state next_tick w_state w_cfg] in G1, G2;
      rewrite Hc1 in G2;
      cbn [fst snd] in *; unfold release;
      cbn [emit set_state w_state w_cfg]; rewrite G1;
      (split; [|assumption]);
      unfold set_running; cbn [p00 pTR pBL running]; rewrite Hs1, <- Hrun;
      now destruct (w_state w). }
  destruct Hst as [H1 H2]. split; [assumption|]. split; [assumption|].
  rewrite (run_macro_entry_ext _ w H1 H2). now rewrite Hentry.
Qed.

Lemma finished_run_can_be_started_again_witness :
  let E := mkEnv (fun _ => []) (fun _ => 3) (fun i => (i =? 1)%nat) (fun _ => false)
                 false false in
  let w' := fst (run_macro E two_cells) in
  w_state w' = w_state two_cells /\ w_cfg w' = w_cfg two_cells
  /\ exists L, snd (run_macro_entry two_cells) = Started L
               /\ snd (run_macro_entry w') = Started L.
Proof.
  intros E w'.
  destruct (run_macro_entry two_cells) as [w1 [|L|e]] eqn:Hentry;
    try (vm_compute in Hentry; discriminate).
  destruct (finished_run_can_be_started_again E two_cells w1 L) as (H1 & H2 & H3).
  - intros t. reflexivity.
  - split; reflexivity.
  - exact Hentry.
  - split; [exact H1|]. split; [exact H2|]. exists L. split; [reflexivity | exact H3].
Defined.



(** ** Where the clicks land *)

Lemma targets_emit (c : Call) (w : World) :
  targets (w_trace (emit c w))
  = targets (w_trace w) ++ match c with MoveTo x y _ => [(x, y)] | _ => [] end.
Proof.
  cbn [emit w_trace]. rewrite targets_app. f_equal. destruct c; reflexivity.
Qed.

(** An iteration of a run that is active, with [p00] at [o], when no
    hotkey is pressed and the collaborator does not fail: one move, to
    the jittered centre of the cell. *)
Lemma loop_body_target (E : Env) (L : Locals) (sequence : list (Z * Z)) (idx : nat)
  (r c clicks nb : Z) (w : World) (o : Point) :
  silent E -> move_fails E idx = false -> click_fails E idx = false ->
  running (w_state w) = true -> p00 (w_state w) = Some o ->
  exists w' nb' xy,
    loop_body E L sequence idx (r, c) clicks nb w = (w', Continue (clicks + 1) nb')
    /\ near_centre o L (r, c) xy
    /\ targets (w_trace w') = targets (w_trace w) ++ [xy].
Proof.
  intros Hs Hmv Hck Hrun Hp.
  pose proof (randint_bounds E (- RANDOM_JITTER) RANDOM_JITTER (next_tick (next_tick w))
                ltac:(unfold RANDOM_JITTER; lia)) as Hjx.
  pose proof (randint_bounds E (- RANDOM_JITTER) RANDOM_JITTER
                (next_tick (next_draw (next_tick (next_tick w))))
                ltac:(unfold RANDOM_JITTER; lia)) as Hjy.
  rewrite randint_eq in Hjx, Hjy. cbn [fst] in Hjx, Hjy.
  set (jx := - RANDOM_JITTER + _) in Hjx. set (jy := - RANDOM_JITTER + _) in Hjy.
  assert (Hnear : near_centre o L (r, c)
                    (target_x o c (cell_w L) jx, target_y o r (cell_h L) jy)).
  { exists jx, jy. cbn [fst snd]. auto. }
  unfold loop_body.
  repeat (first [rewrite randint_eq | rewrite (deliver_silent E _ Hs)
                | rewrite Hrun | rewrite Hp | rewrite Hmv | rewrite Hck
                | progress cbn [andb negb next_tick next_draw emit w_state]]).
  destruct (nb <=? clicks + 1);
    repeat (first [rewrite randint_eq | rewrite (deliver_silent E _ Hs)
                  | rewrite Hrun
                  | progress cbn [andb negb next_tick next_draw emit w_state]]);
    (eexists; eexists; eexists; split; [reflexivity|]; split; [exact Hnear|]);
    rewrite unit_rest_targets; cbn [w_trace next_tick next_draw emit];
    rewrite !targets_app; cbn [targets flat_map app];
    rewrite ?app_nil_r; reflexivity.
Qed.

Lemma click_loop_targets (E : Env) (L : Locals) (sequence : list (Z * Z)) (o : Point) :
  silent E ->
  (forall i, move_fails E i = false) -> (forall i, click_fails E i = false) ->
  forall rest idx clicks nb w,
    running (w_state w) = true -> p00 (w_state w) = Some o ->
    exists ts,
      targets (w_trace (fst (click_loop E L sequence idx rest clicks nb w)))
      = targets (w_trace w) ++ ts
      /\ Forall2 (near_centre o L) rest ts.
Proof.
  intros Hs Hmv Hck.
  induction rest as [|[r c] rest IH]; intros idx clicks nb w Hrun Hp.
  - exists []. cbn [click_loop fst]. rewrite app_nil_r. auto.
  - destruct (loop_body_target E L sequence idx r c clicks nb w o)
      as (w' & nb' & xy & Hbody & Hnear & Htg); auto.
    destruct (loop_body_silent E L sequence idx (r, c) clicks nb w Hs) as [Hst _].
    rewrite Hbody in Hst. cbn [fst] in Hst.
    destruct (IH (S idx) (clicks + 1) nb' w') as (ts & Hts & Hall);
      [congruence | congruence |].
    exists (xy :: ts). cbn [click_loop]. rewrite Hbody, Hts, Htg, <- app_assoc.
    split; [reflexivity | now constructor].
Qed.

Lemma shuffle_from_rpos {A : Type} (E : Env) (i : nat) :
  forall (x : list A) (w w' : World),
    w_rpos w = w_rpos w' ->
    fst (shuffle_from E i x w) = fst (shuffle_from E i x w').
Proof.
  induction i as [|i IH]; intros x w w' H; [reflexivity|].
  cbn [shuffle_from randbelow]. rewrite H. apply IH. cbn. now rewrite H.
Qed.

(** The sequence that is built only depends on the draws still to come. *)
Lemma build_sequence_rpos (E : Env) (C R ord : Z) (w w' : World) :
  w_rpos w = w_rpos w' ->
  fst (build_sequence E C R ord w) = fst (build_sequence E C R ord w').
Proof.
  intros H. unfold build_sequence.
  destruct (ord =? 1); [reflexivity|]. destruct (ord =? 2); [reflexivity|].
  now apply shuffle_from_rpos.
Qed.

(** X15.  In a run during which neither the panic hotkey nor the capture of
    [p00] is pressed and the collaborator does not fail (moves, clicks,
    key press and key release return), the moves go,
    in the order of the planned sequence and one per cell, to the centre
    of the cell computed from [p00] and the cell size of the start,
    displaced by at most [RANDOM_JITTER] pixels on each axis; captures
    of [pTR] and [pBL] and reloads of the configuration during the run
    change nothing to that. *)
Lemma moves_go_to_the_cells_in_order (E : Env) (w w1 : World) (L : Locals) (o : Point) :
  run_macro_entry w = (w1, Started L) ->
  p00 (w_state w) = Some o ->
  (forall i, move_fails E i = false) -> (forall i, click_fails E i = false) ->
  keys_work E ->
  (forall t, filter concerns_run (sched E t) = []) ->
  let sequence :=
    fst (build_sequence E (columns (w_cfg w)) (rows (w_cfg w)) (scan_order (w_cfg w)) w) in
  exists ts,
    targets (w_trace (fst (run_macro E w))) = targets (w_trace w) ++ ts
    /\ Forall2 (near_centre o L) sequence ts.
Proof.
  intros Hentry Hp Hmv Hck Hkeys Hsched sequence.
  destruct (run_macro_entry_started w w1 L Hentry)
    as (_ & _ & Hs1 & _ & _ & _ & HC & HR & HO).
  assert (Htg1 : targets (w_trace w1) = targets (w_trace w)).
  { clear -Hentry. unfold run_macro_entry in Hentry.
    destruct (running (w_state w)); [discriminate|].
    destruct (p00 (w_state w)); [|discriminate].
    destruct (pTR (w_state w)); [|discriminate].
    destruct (pBL (w_state w)); [|discriminate].
    unfold compute_cell_size in Hentry.
    destruct (p00 (w_state w)); [|discriminate].
    destruct (pTR (w_state w)); [|discriminate].
    destruct (pBL (w_state w)); [|discriminate].
    destruct (_ || _); [discriminate|].
    destruct (true_div _ (columns _)); [|discriminate].
    destruct (true_div _ (rows _)); [|discriminate].
    destruct (degenerate _ _); [discriminate|].
    cbn [w_cfg emit] in Hentry.
    destruct (timing_profile (w_cfg w)) as [[[? ?] ?] ?].
    injection Hentry as <- _. cbn [emit w_trace].
    rewrite !targets_app. cbn [targets flat_map app]. now rewrite !app_nil_r. }
  assert (Hrp1 : w_rpos w1 = w_rpos w).
  { clear -Hentry. unfold run_macro_entry in Hentry.
    destruct (running (w_state w)); [discriminate|].
    destruct (p00 (w_state w)); [|discriminate].
    destruct (pTR (w_state w)); [|discriminate].
    destruct (pBL (w_state w)); [|discriminate].
    pose proof (compute_cell_size_world w) as Hcs.
    destruct (compute_cell_size w) as [w0 [[[cw|] [ch|]]|e]]; try discriminate.
    destruct (degenerate cw ch); [discriminate|].
    destruct (timing_profile (w_cfg w0)) as [[[? ?] ?] ?].
    injection Hentry as <- _. cbn in *. tauto. }
  set (E0 := with_sched E (fun _ => [])).
  assert (Hs0 : silent E0) by (intros t; reflexivity).
  assert (Hview : same_view w1 w1) by (repeat split).
  destruct (run_is_blind_to_pTR_pBL_and_config E (fun _ => []) Hsched L w1 w1 Hview)
    as [Hblind _].
  fold E0 in Hblind.
  assert (Hrun : targets (w_trace (fst (run_macro E w)))
                 = targets (w_trace (fst (run_macro_body E L w1)))).
  { unfold run_macro. rewrite Hentry.
    destruct (run_macro_body E L w1) as [w2 [n|e]]; reflexivity. }
  rewrite Hrun, Hblind. clear Hrun Hblind.
  assert (Hkeys0 : keys_work E0) by exact Hkeys.
  rewrite (run_macro_body_keys_work E0 L w1 Hkeys0).
  cbv zeta. unfold try_block. rewrite (deliver_silent E0 _ Hs0).
  set (w2 := emit KeyDown _).
  assert (Hseq : fst (build_sequence E0 (cols L) (rows_ L) (order L) w2) = sequence).
  { subst sequence. rewrite HC, HR, HO.
    transitivity (fst (build_sequence E (columns (w_cfg w)) (rows (w_cfg w))
                         (scan_order (w_cfg w)) w2)).
    - unfold build_sequence.
      destruct (_ =? 1); [reflexivity|]. destruct (_ =? 2); [reflexivity|].
      unfold shuffle. generalize (length (row_major (columns (w_cfg w)) (rows (w_cfg w))) - 1)%nat.
      generalize (row_major (columns (w_cfg w)) (rows (w_cfg w))).
      generalize w2. intros w0 x i. revert x w0.
      induction i as [|i IH]; intros x w0; [reflexivity|].
      cbn [shuffle_from randbelow tape E0 with_sched]. apply IH.
    - apply build_sequence_rpos. subst w2. cbn. exact Hrp1. }
  pose proof (build_sequence_world E0 (cols L) (rows_ L) (order L) w2) as Hbw.
  destruct (build_sequence E0 (cols L) (rows_ L) (order L) w2) as [sequence0 w3].
  cbn [fst snd] in Hseq, Hbw. subst sequence0. destruct Hbw as (Hs3 & _ & Htr3).
  rewrite randint_eq.
  destruct (click_loop_targets E0 L sequence o Hs0 Hmv Hck sequence 0%nat 0
              (BURST_MIN + tape E0 (w_rpos w3) mod (BURST_MAX - BURST_MIN + 1))
              (next_draw w3)) as (ts & Hts & Hall).
  - rewrite next_draw_state, Hs3. subst w2. reflexivity.
  - rewrite next_draw_state, Hs3. subst w2. cbn. now rewrite Hs1.
  - exists ts. split; [|exact Hall].
    rewrite next_draw_trace, Htr3 in Hts.
    assert (Htg2 : targets (w_trace w2) = targets (w_trace w)).
    { subst w2. cbn [emit set_state next_tick w_trace].
      rewrite !targets_app, Htg1. cbn [targets flat_map app]. now rewrite !app_nil_r. }
    rewrite Htg2 in Hts.
    destruct (click_loop E0 L sequence 0 sequence 0 _ (next_draw w3)) as [w4 [n|e]];
      cbn [fst snd] in *; unfold release;
      cbn [emit set_state w_trace]; rewrite !targets_app, Hts;
      cbn [targets flat_map app]; now rewrite ?app_nil_r.
Qed.

Lemma moves_go_to_the_cells_in_order_witness :
  let E := mkEnv (fun t => if (t =? 4)%nat
                           then [CapturePTR (mkPoint 500 0);
                                 Reload (mkLoaded (Some 9) None None None)]
                           else [])
                 (fun n => Z.of_nat n) (fun _ => false) (fun _ => false) false false in
  exists L ts,
    snd (run_macro_entry two_cells) = Started L
    /\ targets (w_trace (fst (run_macro E two_cells))) = targets (w_trace two_cells) ++ ts
    /\ Forall2 (near_centre (mkPoint 0 0) L) [(0, 0); (0, 1)] ts.
Proof.
  intros E.
  destruct (run_macro_entry two_cells) as [w1 [|L|e]] eqn:Hentry;
    try (vm_compute in Hentry; discriminate).
  destruct (moves_go_to_the_cells_in_order E two_cells w1 L (mkPoint 0 0))
    as (ts & H1 & H2).
  - exact Hentry.
  - reflexivity.
  - reflexivity.
  - reflexivity.
  - split; reflexivity.
  - intros t. unfold E. cbn [sched]. destruct (t =? 4)%nat; reflexivity.
  - exists L, ts. split; [reflexivity|]. split; [exact H1 | exact H2].
Defined.

(** ** Hotkeys pressed during a run *)

(** X16.  Two runs from the same world whose schedules of callbacks
    only differ by captures of [pTR] and [pBL] and by reloads of the
    configuration (they have the same panics and the same captures of
    [p00] at every delivery point) move the pointer to the same targets
    in the same order and end the same way: the cell size, the grid, the
    order and the timing of a run are those of its start. *)
Lemma other_hotkeys_do_not_disturb_a_run (E : Env) (s' : nat -> list Signal)
  (w : World) :
  (forall t, filter concerns_run (sched E t) = filter concerns_run (s' t)) ->
  targets (w_trace (fst (run_macro E w)))
  = targets (w_trace (fst (run_macro (with_sched E s') w)))
  /\ snd (run_macro E w) = snd (run_macro (with_sched E s') w).
Proof.
  intros Hsame. unfold run_macro.
  destruct (run_macro_entry w) as [w1 [|L|e]]; [auto | | auto].
  assert (Hview : same_view w1 w1) by (repeat split).
  destruct (run_is_blind_to_pTR_pBL_and_config E s' Hsame L w1 w1 Hview) as [H1 H2].
  destruct (run_macro_body E L w1) as [w2 r2].
  destruct (run_macro_body (with_sched E s') L w1) as [w2' r2'].
  cbn [fst snd] in H1, H2. subst r2'.
  destruct r2; cbn [fst snd]; auto.
Qed.

Lemma other_hotkeys_do_not_disturb_a_run_witness :
  let E := quiet_env (fun n => Z.of_nat n) in
  let s' := fun t : nat =>
              if (t =? 3)%nat
              then [CapturePBL (mkPoint 7 900);
                    Reload (mkLoaded (Some 50) (Some 50) (Some 2) (Some 3))]
              else [] in
  targets (w_trace (fst (run_macro E two_cells)))
  = targets (w_trace (fst (run_macro (with_sched E s') two_cells)))
  /\ snd (run_macro E two_cells) = snd (run_macro (with_sched E s') two_cells).
Proof.
  intros E s'. apply (other_hotkeys_do_not_disturb_a_run E s' two_cells).
  intros t. unfold s'. cbn [sched E quiet_env]. destruct (t =? 3)%nat; reflexivity.
Defined.
